(** * laptop_client.py: the camera client of the ball-dataset capture tool

    A shallow embedding of [CameraClient] (dataset_creation/laptop_client.py)
    and the properties its specification states about it.

    - [PyStr]    the string operations the client uses ([startswith],
                 [split(":", 1)], [{:04d}], [strftime], [[:-3]],
                 [os.path.join]);
    - [Py]       exceptions and the state-and-exception monad in which the
                 methods are written;
    - [Wire]     the stream socket as the list of segments the transport
                 still has to deliver, [recv] and [struct.unpack("!L", _)];
    - [Client]   [receive_frames], [save_image_remote], [save_image_local]
                 and the display loop of [start], line by line, on a state
                 that holds the fields of the object, the files written and
                 the trace of what the process did;
    - [Threads]  the receiver thread and the main thread as two interleaved
                 step functions over the shared slot, the lock and the
                 object store.

    The definitions come first, the properties after them, and the
    properties at sample inputs last. *)

From Stdlib Require Import ZArith NArith Lia Ascii String List Strings.Byte Bool.
From stdpp Require Import base gmap strings list.

Import ListNotations.
Local Open Scope nat_scope.

(* ===================================================================== *)
(** ** Python strings *)
(* ===================================================================== *)

Module PyStr.

(** [s.startswith(p)] *)
Definition startswith (s p : string) : bool := String.prefix p s.

(** [s.split(sep, 1)] for a one-character separator: the text before the
    first occurrence of [sep] and, when there is one, the text after it. *)
Fixpoint split1 (sep : ascii) (s : string) : string * option string :=
  match s with
  | EmptyString => (EmptyString, None)
  | String c rest =>
      if Ascii.eqb c sep then (EmptyString, Some rest)
      else let '(before, after) := split1 sep rest in (String c before, after)
  end.

(** [s.split(sep, 1)[1]]; [None] stands for the [IndexError] Python raises
    when [sep] does not occur in [s]. *)
Definition split1_snd (sep : ascii) (s : string) : option string :=
  snd (split1 sep s).

(** The decimal digit of a number below ten. *)
Definition digit_char (d : N) : ascii := ascii_of_N (48 + d).

(** [str(n)] for a non-negative integer, most significant digit first.
    The recursion is on [fuel]; [str_of_N] supplies more than the number
    of digits. *)
Fixpoint dec_fuel (fuel : nat) (n : N) : string :=
  match fuel with
  | 0 => EmptyString
  | S fuel' =>
      if (n <? 10)%N then String (digit_char n) EmptyString
      else dec_fuel fuel' (n / 10)%N +:+ String (digit_char (n mod 10)%N) EmptyString
  end.

Definition str_of_N (n : N) : string := dec_fuel (S (N.to_nat (N.log2 n))) n.

Fixpoint replicate_char (k : nat) (c : ascii) : string :=
  match k with
  | 0 => EmptyString
  | S k' => String c (replicate_char k' c)
  end.

(** [s.zfill(width)] for a string without sign. *)
Definition zfill (width : nat) (s : string) : string :=
  replicate_char (width - String.length s) "0"%char +:+ s.

(** [f"{n:0{width}d}"] for a non-negative integer: at least [width]
    characters, zeros on the left. *)
Definition format_0d (width : nat) (n : N) : string := zfill width (str_of_N n).

(** [s[:-k]] *)
Definition drop_last (k : nat) (s : string) : string :=
  String.substring 0 (String.length s - k) s.

(** [os.path.join(d, f)] on a POSIX system, for a directory name [d] that
    is not empty: an absolute [f] replaces [d]. *)
Definition path_join (d f : string) : string :=
  if startswith f "/" then f
  else if String.eqb d EmptyString then f
  else if String.eqb (String.substring (String.length d - 1) 1 d) "/" then d +:+ f
  else d +:+ "/" +:+ f.

(** A [datetime] value. *)
Record datetime := {
  year : N; month : N; day : N;
  hour : N; minute : N; second : N;
  microsecond : N
}.

(** What Python's [datetime] guarantees of every value it builds (the year
    is further taken to have four digits: [%Y] does not pad on every
    platform). *)
Definition valid_datetime (t : datetime) : Prop :=
  (1000 <= year t <= 9999 /\ 1 <= month t <= 12 /\ 1 <= day t <= 31 /\
   hour t <= 23 /\ minute t <= 59 /\ second t <= 59 /\ microsecond t <= 999999)%N.

(** [t.strftime("%Y%m%d_%H%M%S_%f")] *)
Definition strftime_stamp (t : datetime) : string :=
  format_0d 4 (year t) +:+ format_0d 2 (month t) +:+ format_0d 2 (day t) +:+ "_" +:+
  format_0d 2 (hour t) +:+ format_0d 2 (minute t) +:+ format_0d 2 (second t) +:+ "_" +:+
  format_0d 6 (microsecond t).

(** The decimal digits of [n mod 10^width], exactly [width] of them; this is
    what the patterns [0000], [YYYY], [MM], ... of the specification denote. *)
Fixpoint fixed_dec (width : nat) (n : N) : string :=
  match width with
  | 0 => EmptyString
  | S w => fixed_dec w (n / 10)%N +:+ String (digit_char (n mod 10)%N) EmptyString
  end.

End PyStr.

(* ===================================================================== *)
(** ** Exceptions, outcomes *)
(* ===================================================================== *)

Module Py.

(** The exceptions that reach the client's handlers.  All of them are
    subclasses of [Exception]; [KeyboardInterrupt], which is not, is
    delivered by a signal and is outside this model. *)
Inductive exn :=
| ConnectionError (msg : string)     (* raised by [receive_frames] itself *)
| OSError (msg : string)             (* socket and file system failures *)
| UnicodeDecodeError (msg : string)  (* [bytes.decode] *)
| StructError (msg : string)         (* [struct.unpack] *)
| PickleError (msg : string)         (* whatever [pickle.loads] raises *)
| Cv2Error (msg : string)            (* whatever OpenCV raises *)
| IndexError (msg : string).

(** [str(e)], as printed by [f"...{e}"]. *)
Definition exn_str (e : exn) : string :=
  match e with
  | ConnectionError m | OSError m | UnicodeDecodeError m
  | StructError m | PickleError m | Cv2Error m | IndexError m => m
  end.

(** How a piece of code ends: it returns, it raises, or the model's loop
    bound was reached ([Unfinished]; the theorems show it is not). *)
Inductive outcome (A : Type) :=
| Return (a : A)
| Raise (e : exn)
| Unfinished.
Arguments Return {A} a.
Arguments Raise {A} e.
Arguments Unfinished {A}.

(** The result of a library call: an exception or a value. *)
Definition of_result {A} (r : exn + A) : outcome A :=
  match r with inl e => Raise e | inr a => Return a end.

(** Code that reads and writes a state [W] and may raise. *)
Definition M (W A : Type) : Type := W -> outcome A * W.

Definition ret {W A} (a : A) : M W A := fun w => (Return a, w).

Definition bind {W A B} (m : M W A) (k : A -> M W B) : M W B :=
  fun w =>
    match m w with
    | (Return a, w') => k a w'
    | (Raise e, w') => (Raise e, w')
    | (Unfinished, w') => (Unfinished, w')
    end.

Definition raise {W A} (e : exn) : M W A := fun w => (Raise e, w).

Definition unfinished {W A} : M W A := fun w => (Unfinished, w).

Definition get {W A} (field : W -> A) : M W A := fun w => (Return (field w), w).

Definition modify {W} (f : W -> W) : M W unit := fun w => (Return tt, f w).

(** [try: body  except Exception as e: handler(e)] *)
Definition try_except {W A} (body : M W A) (handler : exn -> M W A) : M W A :=
  fun w =>
    match body w with
    | (Raise e, w') => handler e w'
    | r => r
    end.

(** [try: body  finally: cleanup] *)
Definition try_finally {W A} (body : M W A) (cleanup : M W unit) : M W A :=
  fun w =>
    match body w with
    | (Unfinished, w') => (Unfinished, w')
    | (r, w') =>
        match cleanup w' with
        | (Return _, w'') => (r, w'')
        | (Raise e, w'') => (Raise e, w'')
        | (Unfinished, w'') => (Unfinished, w'')
        end
    end.

(** Code that returns in every state: it neither raises nor stops short. *)
Definition never_fails {W A} (m : M W A) : Prop :=
  forall w, exists a w', m w = (Return a, w').

Declare Scope py_scope.
Delimit Scope py_scope with py.
Notation "x <- m ;; k" := (bind m (fun x => k))
  (at level 100, m at next level, right associativity) : py_scope.
Notation "m ;; k" := (bind m (fun _ => k))
  (at level 100, right associativity) : py_scope.

End Py.

(* ===================================================================== *)
(** ** The stream socket *)
(* ===================================================================== *)

Module Wire.
Import Py.

Abbreviation bytes := (list byte).

(** The state of a connected TCP socket, seen from the reader: the segments
    that the transport will still hand over, in order.  One [recv] returns
    bytes of one segment only, and at most as many as asked for, so the
    list fixes how the byte stream is fragmented across reads.  When all
    segments are consumed the peer has closed the connection. *)
Abbreviation socket := (list bytes).

(** [sock.recv(bufsize)]: the bytes returned and the socket afterwards.
    An empty result means that the connection is closed. *)
Fixpoint recv (bufsize : nat) (sock : socket) : bytes * socket :=
  match sock with
  | [] => ([], [])
  | [] :: sock' => recv bufsize sock'
  | (b :: seg) :: sock' =>
      (firstn bufsize (b :: seg),
       match skipn bufsize (b :: seg) with
       | [] => sock'
       | seg' => seg' :: sock'
       end)
  end.

(** The bytes a socket has not delivered yet. *)
Definition pending (sock : socket) : bytes := concat sock.

(** The accumulation loops of [receive_frames]:
<<
    data = b""
    while len(data) < target:
        chunk = sock.recv(bufsize(target - len(data)))
        if not chunk: raise ConnectionError("Connection lost")
        data += chunk
>>
    with [bufsize m = m] for the length prefix and [bufsize m = min(4096, m)]
    for the payload.  [fuel] bounds the number of iterations. *)
Fixpoint recv_loop (fuel : nat) (bufsize : nat -> nat) (target : nat)
    (data : bytes) (sock : socket) : outcome bytes * socket :=
  if length data <? target then
    match fuel with
    | 0 => (Unfinished, sock)
    | S fuel' =>
        let '(chunk, sock') := recv (bufsize (target - length data)) sock in
        match chunk with
        | [] => (Raise (ConnectionError "Connection lost"), sock')
        | _ :: _ => recv_loop fuel' bufsize target (data ++ chunk) sock'
        end
    end
  else (Return data, sock).

(** Every iteration adds a byte at least, so [target] iterations are
    enough. *)
Definition recv_exactly (bufsize : nat -> nat) (target : nat) (sock : socket)
    : outcome bytes * socket :=
  recv_loop target bufsize target [] sock.

(** [struct.unpack("!L", data)[0]]: four bytes, most significant first. *)
Definition unpack_L (data : bytes) : outcome N :=
  match data with
  | [b0; b1; b2; b3] =>
      Return (((Byte.to_N b0 * 256 + Byte.to_N b1) * 256 + Byte.to_N b2) * 256
              + Byte.to_N b3)%N
  | _ => Raise (StructError "unpack requires a buffer of 4 bytes")
  end.

(** Lines 59-75 of [receive_frames]: the length prefix, then the payload. *)
Definition recv_frame_data (sock : socket) : outcome bytes * socket :=
  match recv_exactly (fun missing => missing) 4 sock with
  | (Return size_data, sock1) =>
      match unpack_L size_data with
      | Return frame_size =>
          recv_exactly (fun missing => Nat.min 4096 missing) (N.to_nat frame_size) sock1
      | Raise e => (Raise e, sock1)
      | Unfinished => (Unfinished, sock1)
      end
  | (Raise e, sock1) => (Raise e, sock1)
  | (Unfinished, sock1) => (Unfinished, sock1)
  end.

(** A request size that the loops of [receive_frames] use: something, and
    never more than what is missing. *)
Definition fits (bufsize : nat -> nat) : Prop :=
  forall missing, 0 < missing -> 0 < bufsize missing <= missing.

(** A stream that ends inside a frame (or between two frames): fewer than
    four bytes, or a length prefix and fewer payload bytes than it
    announces. *)
Definition incomplete (tail : bytes) : bool :=
  (length tail <? 4) ||
  match unpack_L (firstn 4 tail) with
  | Return frame_size => length tail - 4 <? N.to_nat frame_size
  | _ => false
  end.

End Wire.

(* ===================================================================== *)
(** ** CameraClient *)
(* ===================================================================== *)

Module Client.
Import PyStr Py Wire.
Local Open Scope py_scope.

(** The libraries the client calls into. *)
Class Externals := {
  (** what [pickle.loads] returns: any Python object *)
  Encoded : Type;
  (** a decoded image (a numpy array) *)
  Frame : Type;
  pickle_loads : bytes -> exn + Encoded;
  (** [cv2.imdecode(buf, cv2.IMREAD_COLOR)]: [None] when the buffer is not
      an image, an exception when it is not a buffer *)
  imdecode : Encoded -> exn + option Frame;
  (** [bytes.decode('utf-8')] *)
  decode_utf8 : bytes -> exn + string;
  (** the contents of an image after [cv2.putText(img, text, ...)] has
      drawn on it *)
  putText : Frame -> string -> Frame
}.

(** What the process does that can be seen from outside, in order. *)
Inductive event :=
| EvAcquire                              (* frame_lock acquired *)
| EvRelease                              (* frame_lock released *)
| EvCopy                                 (* current_frame.copy() *)
| EvPrint (line : string)
| EvSend (data : string)                 (* save_socket.send *)
| EvRecv (bufsize : nat)                 (* save_socket.recv *)
| EvNow                                  (* datetime.now() *)
| EvImwrite (filepath : string) (quality : N)
| EvImshow (overlay : string).

(** What the command server does during one call of [save_image_remote]. *)
Record cmd_server := {
  send_error : option exn;   (* [send] raises *)
  reply : exn + bytes        (* [recv] raises, or the bytes that arrive *)
}.

(** What the machine answers during one call of [save_image_local]. *)
Record local_env := {
  now : datetime;              (* [datetime.now()] *)
  imwrite_result : exn + bool  (* [cv2.imwrite] raises, or what it returns *)
}.

Section WithExternals.
Context `{Externals}.

(** The fields of [CameraClient] that change, the stream socket, the files
    written so far and the trace of events. *)
Record World := {
  running : bool;
  current_frame : option Frame;
  image_counter : N;
  stream_socket : socket;
  files : gmap string Frame;
  trace : list event
}.

Definition local_save_dir : string := "ball_dataset_local".

Definition set_current_frame (f : option Frame) (w : World) : World :=
  {| running := running w; current_frame := f;
     image_counter := image_counter w; stream_socket := stream_socket w;
     files := files w; trace := trace w |}.

Definition set_image_counter (c : N) (w : World) : World :=
  {| running := running w; current_frame := current_frame w;
     image_counter := c; stream_socket := stream_socket w;
     files := files w; trace := trace w |}.

Definition set_stream_socket (s : socket) (w : World) : World :=
  {| running := running w; current_frame := current_frame w;
     image_counter := image_counter w; stream_socket := s;
     files := files w; trace := trace w |}.

Definition write_file (path : string) (f : Frame) (w : World) : World :=
  {| running := running w; current_frame := current_frame w;
     image_counter := image_counter w; stream_socket := stream_socket w;
     files := <[path := f]> (files w); trace := trace w |}.

Definition log (ev : event) (w : World) : World :=
  {| running := running w; current_frame := current_frame w;
     image_counter := image_counter w; stream_socket := stream_socket w;
     files := files w; trace := trace w ++ [ev] |}.

Definition emit (ev : event) : M World unit := modify (log ev).

Definition print (line : string) : M World unit := emit (EvPrint line).

(** [self.image_counter += 1] *)
Definition incr_image_counter : M World unit :=
  modify (fun w => set_image_counter (image_counter w + 1) w).

(** [with self.frame_lock: body]; the lock is released however [body]
    ends. *)
Definition with_frame_lock {A} (body : M World A) : M World A :=
  emit EvAcquire;; try_finally body (emit EvRelease).

(** A library call on values. *)
Definition call {A} (r : exn + A) : M World A := fun w => (of_result r, w).

(** [frame.copy()]: a new array with the same contents. *)
Definition copy (f : Frame) : Frame := f.

(** *** receive_frames *)

(** Lines 59-75, on [self.stream_socket]. *)
Definition recv_frame : M World bytes :=
  fun w =>
    let '(r, sock') := recv_frame_data (stream_socket w) in
    (r, set_stream_socket sock' w).

(** Lines 77-83: unpickle, decode, publish under the lock. *)
Definition decode_and_publish (frame_data : bytes) : M World unit :=
  frame_encoded <- call (pickle_loads frame_data);;
  frame <- call (imdecode frame_encoded);;
  with_frame_lock (modify (set_current_frame frame)).

(** The body of the [while self.running] loop, lines 59-83. *)
Definition receive_one : M World unit :=
  frame_data <- recv_frame;;
  decode_and_publish frame_data.

Fixpoint receive_loop (fuel : nat) : M World unit :=
  match fuel with
  | 0 => unfinished
  | S fuel' =>
      r <- get running;;
      if (r : bool) then receive_one;; receive_loop fuel' else ret tt
  end.

(** [receive_frames]: every completed iteration takes four bytes at least
    off the socket, which bounds the number of iterations. *)
Definition receive_frames : M World unit :=
  fun w =>
    try_except
      (receive_loop (S (length (pending (stream_socket w)))))
      (fun e =>
         r <- get running;;
         if (r : bool) then print ("Frame receiving error: " +:+ exn_str e)
         else ret tt)
      w.

(** *** save_image_remote *)

Definition sock_send (srv : cmd_server) (data : string) : M World unit :=
  emit (EvSend data);;
  match send_error srv with
  | Some e => raise e
  | None => ret tt
  end.

Definition sock_recv (srv : cmd_server) (bufsize : nat) : M World bytes :=
  emit (EvRecv bufsize);;
  match reply srv with
  | inl e => raise e
  | inr data => ret (firstn bufsize data)
  end.

(** [if filename:] is false for [None] and for the empty string. *)
Definition truthy (filename : option string) : bool :=
  match filename with
  | Some (String _ _) => true
  | _ => false
  end.

Definition save_image_remote (srv : cmd_server) (filename : option string)
    : M World bool :=
  try_except
    (let command :=
       if truthy filename then "SAVE:" +:+ default "" filename else "SAVE" in
     sock_send srv command;;
     raw <- sock_recv srv 1024;;
     response <- call (decode_utf8 raw);;
     if startswith response "SAVED:" then
       match split1_snd ":" response with
       | Some filepath =>
           print ("✓ Image saved on GO2: " +:+ filepath);;
           ret true
       | None => raise (IndexError "list index out of range")
       end
     else
       print ("✗ Failed to save on GO2: " +:+ response);;
       ret false)
    (fun e =>
       print ("Error saving remote image: " +:+ exn_str e);;
       ret false).

(** *** save_image_local *)

(** [cv2.imwrite(filepath, frame, [cv2.IMWRITE_JPEG_QUALITY, 95])] *)
Definition imwrite (env : local_env) (filepath : string) (frame : Frame)
    : M World bool :=
  emit (EvImwrite filepath 95);;
  match imwrite_result env with
  | inl e => raise e
  | inr true => modify (write_file filepath frame);; ret true
  | inr false => ret false
  end.

(** [datetime.now().strftime("%Y%m%d_%H%M%S_%f")[:-3]] *)
Definition timestamp_now (t : datetime) : M World string :=
  emit EvNow;; ret (drop_last 3 (strftime_stamp t)).

(** [f"ball_dataset_{counter:04d}_{timestamp}.jpg"] *)
Definition dataset_filename (counter : N) (timestamp : string) : string :=
  "ball_dataset_" +:+ format_0d 4 counter +:+ "_" +:+ timestamp +:+ ".jpg".

Definition save_image_local (env : local_env) (filename : option string)
    : M World bool :=
  try_except
    (copied <- with_frame_lock
       (cf <- get current_frame;;
        match cf with
        | None => print "✗ No frame available to save";; ret None
        | Some f => emit EvCopy;; ret (Some (copy f))
        end);;
     match copied with
     | None => ret false                (* the [return False] of line 118 *)
     | Some frame =>
         filename <-
           match filename with
           | None =>
               incr_image_counter;;
               timestamp <- timestamp_now (now env);;
               counter <- get image_counter;;
               ret (dataset_filename counter timestamp)
           | Some name => ret name
           end;;
         let filepath := path_join local_save_dir filename in
         success <- imwrite env filepath frame;;
         if (success : bool) then
           print ("✓ Image saved locally: " +:+ filepath);;
           ret true
         else
           print ("✗ Failed to save image: " +:+ filepath);;
           ret false
     end)
    (fun e =>
       print ("Error saving local image: " +:+ exn_str e);;
       ret false).

(** *** The display loop of start *)

Definition instructions : string := "
=== BALL DETECTION DATASET CAPTURE ===
Controls:
- 's' or SPACE: Save image on GO2 (remote)
- 'l': Save image locally on laptop
- 'b': Save image both remote and local
- 'q' or ESC: Quit
- 'h': Show this help again

Tip: Position the ball in different locations, lighting conditions,
and angles to create a diverse dataset!
        ".

Definition display_instructions : M World unit := print instructions.

(** What the surroundings do during one iteration of the display loop:
    what the receiver thread has stored into the slot since the previous
    iteration (if it has stored anything), the value [cv2.waitKey(1)]
    returns, the command server, the clock and the file system. *)
Record tick := {
  published : option (option Frame);
  waitKey : Z;
  server : cmd_server;
  machine : local_env
}.

Definition receiver_publishes (p : option (option Frame)) : M World unit :=
  match p with
  | Some frame => modify (set_current_frame frame)
  | None => ret tt
  end.

(** Lines 183-195: the frame and its overlay. *)
Definition show_frame : M World unit :=
  with_frame_lock
    (cf <- get current_frame;;
     match cf with
     | Some f =>
         emit EvCopy;;
         let display_frame := copy f in
         counter <- get image_counter;;
         emit (EvImshow ("Images saved: " +:+ str_of_N counter))
     | None => ret tt
     end).

Inductive loop_ctl := Continue | Break.

(** Lines 198-219: the key and what it triggers.  The codes are [ord('q')],
    ESC, [ord('s')], [ord(' ')], [ord('l')], [ord('b')] and [ord('h')]. *)
Definition handle_key (t : tick) : M World loop_ctl :=
  let key := Z.land (waitKey t) 255 in
  if ((key =? 113) || (key =? 27))%Z then ret Break
  else if ((key =? 115) || (key =? 32))%Z then
    saved <- save_image_remote (server t) None;;
    (if (saved : bool) then incr_image_counter else ret tt);;
    ret Continue
  else if (key =? 108)%Z then
    saved <- save_image_local (machine t) None;;
    (if (saved : bool) then
       counter <- get image_counter;;
       print ("📁 Total images in dataset: " +:+ str_of_N counter)
     else ret tt);;
    ret Continue
  else if (key =? 98)%Z then
    incr_image_counter;;
    timestamp <- timestamp_now (now (machine t));;
    counter <- get image_counter;;
    let filename := dataset_filename counter timestamp in
    remote_success <- save_image_remote (server t) (Some filename);;
    local_success <- save_image_local (machine t) (Some filename);;
    (if (remote_success || local_success)%bool then incr_image_counter else ret tt);;
    ret Continue
  else if (key =? 104)%Z then
    display_instructions;;
    ret Continue
  else ret Continue.

(** One iteration of [while self.running], lines 183-219. *)
Definition iteration (t : tick) : M World loop_ctl :=
  receiver_publishes (published t);;
  show_frame;;
  handle_key t.

(** The loop, for as long as [ticks] describes the surroundings. *)
Fixpoint display_loop (ticks : list tick) : M World unit :=
  match ticks with
  | [] => unfinished
  | t :: ticks' =>
      r <- get running;;
      if (r : bool) then
        ctl <- iteration t;;
        match ctl with
        | Break => ret tt
        | Continue => display_loop ticks'
        end
      else ret tt
  end.

(** The iterations of a session that is not quit within [ticks]: the state
    after them, or [None] when the loop ended before. *)
Fixpoint run_ticks (ticks : list tick) (w : World) : option World :=
  match ticks with
  | [] => Some w
  | t :: ticks' =>
      if running w then
        match iteration t w with
        | (Return Continue, w') => run_ticks ticks' w'
        | _ => None
        end
      else None
  end.

(** The key of an iteration, as the loop reads it. *)
Definition key_of (t : tick) : Z := Z.land (waitKey t) 255.

(** The command server takes the command and answers [SAVED:...]. *)
Definition remote_succeeds (srv : cmd_server) : bool :=
  match send_error srv, reply srv with
  | None, inr raw =>
      match decode_utf8 (firstn 1024 raw) with
      | inr response => startswith response "SAVED:"
      | inl _ => false
      end
  | _, _ => false
  end.

(** [cv2.imwrite] returns [True]. *)
Definition local_succeeds (env : local_env) : bool :=
  match imwrite_result env with
  | inr true => true
  | _ => false
  end.

(** The receiver thread does not empty the slot before this iteration. *)
Definition keeps_frame (t : tick) : bool :=
  match published t with
  | Some None => false
  | _ => true
  end.

(** An iteration in which 's' or SPACE is pressed and the remote save
    succeeds; one in which 'l' is pressed and the local save succeeds; one
    in which 'b' is pressed and both saves succeed. *)
Definition remote_save_tick (t : tick) : bool :=
  ((key_of t =? 115)%Z || (key_of t =? 32)%Z) && remote_succeeds (server t).

Definition local_save_tick (t : tick) : bool :=
  (key_of t =? 108)%Z && keeps_frame t && local_succeeds (machine t).

Definition both_save_tick (t : tick) : bool :=
  (key_of t =? 98)%Z && keeps_frame t
  && remote_succeeds (server t) && local_succeeds (machine t).

(** The paths [cv2.imwrite] was called with, in order. *)
Fixpoint imwrite_paths (tr : list event) : list string :=
  match tr with
  | [] => []
  | EvImwrite filepath _ :: tr' => filepath :: imwrite_paths tr'
  | _ :: tr' => imwrite_paths tr'
  end.

(** Whether [cv2.imwrite] and [datetime.now()] are only called while the
    frame lock is free, and the frame only copied while it is held. *)
Fixpoint lock_discipline (held : bool) (tr : list event) : bool :=
  match tr with
  | [] => true
  | EvAcquire :: tr' => lock_discipline true tr'
  | EvRelease :: tr' => lock_discipline false tr'
  | EvImwrite _ _ :: tr' | EvNow :: tr' => negb held && lock_discipline held tr'
  | EvCopy :: tr' => held && lock_discipline held tr'
  | _ :: tr' => lock_discipline held tr'
  end.

(** The state when the display loop is entered for the first time: the
    fields as [__init__] sets them, and [running] set by [start]. *)
Definition initial_world (stream : socket) : World :=
  {| running := true; current_frame := None; image_counter := 0;
     stream_socket := stream; files := ∅; trace := [] |}.

End WithExternals.

(** An instance for running the model: frames and pickled objects are byte
    strings, unpickling and decoding succeed on non-empty input, and only
    ASCII decodes as UTF-8. *)
Definition ascii_only (data : bytes) : bool :=
  forallb (fun b => (Byte.to_N b <? 128)%N) data.

#[export] Instance toy_externals : Externals := {|
  Encoded := bytes;
  Frame := bytes;
  pickle_loads data :=
    match data with
    | [] => inl (PickleError "Ran out of input")
    | _ => inr data
    end;
  imdecode buf := inr (match buf with [] => None | _ => Some buf end);
  decode_utf8 data :=
    if ascii_only data then inr (string_of_list_byte data)
    else inl (UnicodeDecodeError "invalid start byte");
  putText img text := img ++ list_byte_of_string text
|}.

(** Sample surroundings, for running the model on the toy instance. *)
Definition sample_now : datetime :=
  {| year := 2026; month := 11; day := 3;
     hour := 8; minute := 5; second := 9; microsecond := 1234 |}.

Definition sample_server (text : string) : cmd_server :=
  {| send_error := None; reply := inr (list_byte_of_string text) |}.

Definition sample_machine (written : bool) : local_env :=
  {| now := sample_now; imwrite_result := inr written |}.

Definition sample_tick (key : Z) : tick :=
  {| published := None; waitKey := key;
     server := sample_server "SAVED:/data/img001.jpg";
     machine := sample_machine true |}.

(** A session in which one frame has arrived. *)
Definition sample_world : World :=
  set_current_frame (Some [x01; x02]) (initial_world []).

(** A stream cut into four segments: the prefix [00 00 00 03], the payload
    [abc], and one byte of the next frame. *)
Definition sample_stream : socket :=
  [[x00; x00]; [x00]; [x03; x61]; [x62; x63; x64]].

(** A prefix that announces 1000 bytes, 500 bytes, and the end. *)
Definition truncated_stream : socket :=
  [[x00; x00]; [x03; xe8]; repeat x61 300; repeat x62 200].

End Client.

(* ===================================================================== *)
(** ** The two threads *)
(* ===================================================================== *)

Module Threads.
Import PyStr Py Wire Client.

Inductive tid := Receiver | Main.

(** A reference to an array in the object store. *)
Abbreviation loc := nat.

(** Where the receiver thread is in [receive_frames]. *)
Inductive rpc :=
| RWhile                          (* line 58: the loop test *)
| RRecv                           (* lines 59-79: read, unpickle, decode *)
| RAcquire (frame : option loc)   (* line 82: about to take the lock *)
| RStore (frame : option loc)     (* line 83 *)
| RRelease                        (* the end of the with block *)
| RExcept (e : exn)               (* lines 85-87 *)
| RDone.

(** Where the main thread is in [start] and in [save_image_local]. *)
Inductive mpc :=
| MWait                           (* line 176 *)
| MWhile                          (* line 182: the loop test *)
| MAcquire                        (* line 183 *)
| MCheck                          (* line 184 *)
| MCopy                           (* line 186 *)
| MPut1 (display_frame : loc)     (* line 189 *)
| MPut2 (display_frame : loc)     (* line 191 *)
| MShow (display_frame : loc)     (* line 195 *)
| MRelease                        (* the end of the with block *)
| MRaise                          (* an exception leaves the with block *)
| MKey                            (* lines 198-219 *)
| LAcquire                        (* line 115 *)
| LCheck                          (* line 116 *)
| LCopy                           (* line 120 *)
| LRelease (frame : option loc)   (* the end of the with block *)
| LRaise                          (* an exception leaves the with block *)
| LWrite (frame : loc)            (* lines 122-135 *)
| MStop                           (* stop, line 230 *)
| MDone.

(** What the main thread reads from outside at a step: the key, and the
    counter it prints on the overlay.  The counter, the command socket and
    the files belong to the main thread alone and are not part of the
    shared state. *)
Record input := { in_key : Z; in_counter : N }.

Section WithExternals.
Context `{Externals}.

Record state := {
  slot : option loc;            (* self.current_frame *)
  heap : gmap loc Frame;        (* the arrays, by reference *)
  next : loc;                   (* the next free reference *)
  lock : option tid;            (* who holds self.frame_lock *)
  flag : bool;                  (* self.running *)
  stream : socket;              (* self.stream_socket *)
  pc_r : rpc;
  pc_m : mpc
}.

Definition set_slot v s :=
  {| slot := v; heap := heap s; next := next s; lock := lock s; flag := flag s;
     stream := stream s; pc_r := pc_r s; pc_m := pc_m s |}.
Definition set_lock v s :=
  {| slot := slot s; heap := heap s; next := next s; lock := v; flag := flag s;
     stream := stream s; pc_r := pc_r s; pc_m := pc_m s |}.
Definition set_flag v s :=
  {| slot := slot s; heap := heap s; next := next s; lock := lock s; flag := v;
     stream := stream s; pc_r := pc_r s; pc_m := pc_m s |}.
Definition set_stream v s :=
  {| slot := slot s; heap := heap s; next := next s; lock := lock s; flag := flag s;
     stream := v; pc_r := pc_r s; pc_m := pc_m s |}.
Definition goto_r v s :=
  {| slot := slot s; heap := heap s; next := next s; lock := lock s; flag := flag s;
     stream := stream s; pc_r := v; pc_m := pc_m s |}.
Definition goto_m v s :=
  {| slot := slot s; heap := heap s; next := next s; lock := lock s; flag := flag s;
     stream := stream s; pc_r := pc_r s; pc_m := v |}.
(** A new array with contents [f]; its reference is [next s]. *)
Definition alloc (f : Frame) s :=
  {| slot := slot s; heap := <[next s := f]> (heap s); next := S (next s);
     lock := lock s; flag := flag s; stream := stream s;
     pc_r := pc_r s; pc_m := pc_m s |}.
(** The array at [l] modified in place. *)
Definition mutate (l : loc) (g : Frame -> Frame) s :=
  {| slot := slot s; heap := alter g l (heap s); next := next s;
     lock := lock s; flag := flag s; stream := stream s;
     pc_r := pc_r s; pc_m := pc_m s |}.

(** [self.current_frame.copy()]: the new reference, or [None] when the slot
    is empty (an [AttributeError]). *)
Definition copy_slot s : option (loc * state) :=
  match slot s with
  | Some l =>
      match heap s !! l with
      | Some f => Some (next s, alloc (copy f) s)
      | None => None
      end
  | None => None
  end.

(** One step of the receiver thread; [None] when it cannot move. *)
Definition step_receiver (s : state) : option state :=
  match pc_r s with
  | RWhile => Some (goto_r (if flag s then RRecv else RDone) s)
  | RRecv =>
      match recv_frame_data (stream s) with
      | (Return frame_data, sock') =>
          let s := set_stream sock' s in
          match pickle_loads frame_data with
          | inr frame_encoded =>
              match imdecode frame_encoded with
              | inr (Some frame) => Some (goto_r (RAcquire (Some (next s))) (alloc frame s))
              | inr None => Some (goto_r (RAcquire None) s)
              | inl e => Some (goto_r (RExcept e) s)
              end
          | inl e => Some (goto_r (RExcept e) s)
          end
      | (Raise e, sock') => Some (goto_r (RExcept e) (set_stream sock' s))
      | (Unfinished, _) => None
      end
  | RAcquire frame =>
      match lock s with
      | None => Some (goto_r (RStore frame) (set_lock (Some Receiver) s))
      | Some _ => None
      end
  | RStore frame => Some (goto_r RRelease (set_slot frame s))
  | RRelease => Some (goto_r RWhile (set_lock None s))
  | RExcept e => Some (goto_r RDone s)
  | RDone => None
  end.

(** One step of the main thread; [None] when it cannot move. *)
Definition step_main (i : input) (s : state) : option state :=
  match pc_m s with
  | MWait =>
      Some (goto_m (if bool_decide (slot s = None) && flag s then MWait else MWhile) s)
  | MWhile => Some (goto_m (if flag s then MAcquire else MStop) s)
  | MAcquire =>
      match lock s with
      | None => Some (goto_m MCheck (set_lock (Some Main) s))
      | Some _ => None
      end
  | MCheck => Some (goto_m (if bool_decide (slot s = None) then MRelease else MCopy) s)
  | MCopy =>
      match copy_slot s with
      | Some (display_frame, s') => Some (goto_m (MPut1 display_frame) s')
      | None => Some (goto_m MRaise s)
      end
  | MPut1 d =>
      Some (goto_m (MPut2 d)
              (mutate d (fun f => putText f ("Images saved: " +:+ str_of_N (in_counter i))) s))
  | MPut2 d =>
      Some (goto_m (MShow d)
              (mutate d (fun f => putText f "Press 's' to save, 'q' to quit") s))
  | MShow d => Some (goto_m MRelease s)
  | MRelease => Some (goto_m MKey (set_lock None s))
  | MRaise => Some (goto_m MStop (set_lock None s))
  | MKey =>
      let key := Z.land (in_key i) 255 in
      if ((key =? 113) || (key =? 27))%Z then Some (goto_m MStop s)
      else if ((key =? 108) || (key =? 98))%Z then Some (goto_m LAcquire s)
      else Some (goto_m MWhile s)
  | LAcquire =>
      match lock s with
      | None => Some (goto_m LCheck (set_lock (Some Main) s))
      | Some _ => None
      end
  | LCheck =>
      Some (goto_m (if bool_decide (slot s = None) then LRelease None else LCopy) s)
  | LCopy =>
      match copy_slot s with
      | Some (frame, s') => Some (goto_m (LRelease (Some frame)) s')
      | None => Some (goto_m LRaise s)
      end
  | LRelease None => Some (goto_m MWhile (set_lock None s))
  | LRelease (Some frame) => Some (goto_m (LWrite frame) (set_lock None s))
  | LRaise => Some (goto_m MWhile (set_lock None s))
  | LWrite frame => Some (goto_m MWhile s)
  | MStop => Some (goto_m MDone (set_flag false s))
  | MDone => None
  end.

Definition step (who : tid) (i : input) (s : state) : option state :=
  match who with
  | Receiver => step_receiver s
  | Main => step_main i s
  end.

(** A run under a schedule: who moves at each step, and with which input.
    A thread that cannot move leaves the state as it is. *)
Fixpoint run (schedule : list (tid * input)) (s : state) : state :=
  match schedule with
  | [] => s
  | (who, i) :: rest => run rest (default s (step who i s))
  end.

(** The state when [start] has started the receiver thread (line 172). *)
Definition initial (sock : socket) : state :=
  {| slot := None; heap := ∅; next := 0; lock := None; flag := true;
     stream := sock; pc_r := RWhile; pc_m := MWait |}.

(** A frame that is the decoding of a complete payload. *)
Definition fully_decoded (f : Frame) : Prop :=
  exists sock sock' frame_data frame_encoded,
    recv_frame_data sock = (Return frame_data, sock') /\
    pickle_loads frame_data = inr frame_encoded /\
    imdecode frame_encoded = inr (Some f).

(** The slot is empty or refers to a fully decoded frame. *)
Definition slot_ok (s : state) : Prop :=
  slot s = None \/
  exists l f, slot s = Some l /\ heap s !! l = Some f /\ fully_decoded f.

(** The frame a reader finds in the slot. *)
Definition slot_frame (s : state) : option Frame :=
  match slot s with
  | Some l => heap s !! l
  | None => None
  end.

(** The program points at which a thread holds the lock. *)
Definition holds_lock_r (p : rpc) : bool :=
  match p with
  | RStore _ | RRelease => true
  | _ => false
  end.

Definition holds_lock_m (p : mpc) : bool :=
  match p with
  | MCheck | MCopy | MPut1 _ | MPut2 _ | MShow _ | MRelease | MRaise
  | LCheck | LCopy | LRelease _ | LRaise => true
  | _ => false
  end.

(** The reference the receiver is about to publish, and the reference to
    the copy the main thread works on. *)
Definition pending_r (p : rpc) : option loc :=
  match p with
  | RAcquire (Some l) | RStore (Some l) => Some l
  | _ => None
  end.

Definition private_m (p : mpc) : option loc :=
  match p with
  | MPut1 d | MPut2 d | MShow d | LRelease (Some d) | LWrite d => Some d
  | _ => None
  end.

Definition decoded_at (s : state) (l : loc) : Prop :=
  l < next s /\ exists f, heap s !! l = Some f /\ fully_decoded f.

(** What holds in every state the two threads can reach. *)
Record invariant (s : state) : Prop := {
  (** the lock is held by the thread that is inside a with block, and by
      one thread at most *)
  inv_lock :
    lock s = (if holds_lock_r (pc_r s) then Some Receiver
              else if holds_lock_m (pc_m s) then Some Main else None);
  inv_exclusive : holds_lock_r (pc_r s) && holds_lock_m (pc_m s) = false;
  (** the slot and the receiver's next frame are fully decoded frames *)
  inv_slot : forall l, slot s = Some l -> decoded_at s l;
  inv_pending : forall l, pending_r (pc_r s) = Some l -> decoded_at s l;
  (** the main thread's copy is its own *)
  inv_private :
    forall d, private_m (pc_m s) = Some d ->
      d < next s /\ slot s <> Some d /\ pending_r (pc_r s) <> Some d;
  (** the slot is not empty when the main thread copies it, and no
      exception has left a with block *)
  inv_copy : pc_m s = MCopy \/ pc_m s = LCopy -> slot s <> None;
  inv_no_raise : pc_m s <> MRaise /\ pc_m s <> LRaise
}.

End WithExternals.

End Threads.

(* ===================================================================== *)
(** ** A stream of frames *)
(* ===================================================================== *)

Module Framing.
Import PyStr Py Wire Client.

(** A frame on the wire: the four bytes of the prefix, then the payload. *)
Definition frame_bytes (fr : bytes * bytes) : bytes := fr.1 ++ fr.2.

Definition stream_of (frames : list (bytes * bytes)) : bytes :=
  concat (map frame_bytes frames).

(** The prefix announces the length of the payload. *)
Definition well_framed (fr : bytes * bytes) : bool :=
  match unpack_L fr.1 with
  | Return frame_size => (frame_size =? N.of_nat (length fr.2))%N
  | _ => false
  end.

(** The value of a string of decimal digits, as [int(s)] reads it. *)
Definition digit_value (c : ascii) : N := (N_of_ascii c - 48)%N.

Fixpoint digits_value_from (acc : N) (s : string) : N :=
  match s with
  | EmptyString => acc
  | String c rest => digits_value_from (acc * 10 + digit_value c) rest
  end.

Definition digits_value (s : string) : N := digits_value_from 0 s.

(** Whether [c] does not occur in [s]. *)
Fixpoint lacks (c : ascii) (s : string) : bool :=
  match s with
  | EmptyString => true
  | String c' rest => negb (Ascii.eqb c' c) && lacks c rest
  end.

(** The commands sent on the command socket, in order. *)
Fixpoint sent_commands (tr : list event) : list string :=
  match tr with
  | [] => []
  | EvSend data :: tr' => data :: sent_commands tr'
  | _ :: tr' => sent_commands tr'
  end.

Section WithExternals.
Context `{Externals}.

(** Lines 78-79 on a payload: what [frame] is bound to, or [None] when
    unpickling or decoding raises. *)
Definition decode_payload (frame_data : bytes) : option (option Frame) :=
  match pickle_loads frame_data with
  | inr frame_encoded =>
      match imdecode frame_encoded with
      | inr frame => Some frame
      | inl _ => None
      end
  | inl _ => None
  end.

Definition decodes (fr : bytes * bytes) : bool :=
  match decode_payload fr.2 with
  | Some _ => true
  | None => false
  end.

(** What the slot holds after the frames were published one after the
    other. *)
Definition slot_after (frames : list (bytes * bytes)) (slot : option Frame)
    : option Frame :=
  fold_left (fun slot fr => default slot (decode_payload fr.2)) frames slot.

(** The value [save_image_local] returns. *)
Definition local_result (env : local_env) (w : World) : bool :=
  match current_frame w with
  | Some _ => local_succeeds env
  | None => false
  end.

(** A key that triggers no save. *)
Definition no_save_key (t : tick) : bool :=
  negb ((key_of t =? 115) || (key_of t =? 32) || (key_of t =? 108) || (key_of t =? 98))%Z.

Definition quit_key (t : tick) : bool :=
  ((key_of t =? 113) || (key_of t =? 27))%Z.

(** The flag, the slot and the stream socket are the same in both
    states. *)
Definition same_session (w w' : World) : Prop :=
  running w' = running w /\ current_frame w' = current_frame w /\
  stream_socket w' = stream_socket w.

(** A path inside the local save directory, under the name of the
    dataset. *)
Definition in_save_dir (filepath : string) : bool :=
  startswith filepath "ball_dataset_local/ball_dataset_".

(** The command [save_image_remote] sends. *)
Definition command_for (filename : option string) : string :=
  if truthy filename then "SAVE:" +:+ default "" filename else "SAVE".

(** The name a local save writes under. *)
Definition local_name (env : local_env) (filename : option string) (w : World) : string :=
  match filename with
  | Some name => name
  | None => dataset_filename (image_counter w + 1) (drop_last 3 (strftime_stamp (now env)))
  end.

End WithExternals.

(** An instance in which some payloads do not decode: a pickled object is
    the payload without its first byte, which has to be [0x80]; an image
    has to start with [0xff], or [cv2.imdecode] returns [None]. *)
#[export] Instance strict_externals : Externals | 10 := {|
  Encoded := bytes;
  Frame := bytes;
  pickle_loads data :=
    match data with
    | x80 :: body => inr body
    | _ => inl (PickleError "invalid load key")
    end;
  imdecode buf := inr (match buf with xff :: _ => Some buf | _ => None end);
  decode_utf8 data :=
    if ascii_only data then inr (string_of_list_byte data)
    else inl (UnicodeDecodeError "invalid start byte");
  putText img text := img ++ list_byte_of_string text
|}.

End Framing.

(* ===================================================================== *)
(** ** start and stop *)
(* ===================================================================== *)

Module Session.
Import PyStr Py Wire Client.
Local Open Scope py_scope.

(** The arguments of [__init__], and the working directory of the
    process. *)
Record config := {
  go2_ip : string;
  stream_port : N;
  save_port : N;
  cwd : string
}.

(** A socket attribute of the object: [None], or a socket that is open or
    closed. *)
Inductive handle := NoSocket | Socket (closed : bool).

(** What happens when a socket is made and connected: [socket.socket]
    raises, [connect] raises, or neither. *)
Record connect_env := {
  create_error : option exn;
  connect_error : option exn
}.

Section WithExternals.
Context `{Externals}.

(** The object with its two socket attributes. *)
Record Process := {
  client : World;
  stream_handle : handle;   (* self.stream_socket *)
  save_handle : handle      (* self.save_socket *)
}.

Definition set_client (w : World) (p : Process) : Process :=
  {| client := w; stream_handle := stream_handle p; save_handle := save_handle p |}.

Definition set_stream_handle (h : handle) (p : Process) : Process :=
  {| client := client p; stream_handle := h; save_handle := save_handle p |}.

Definition set_save_handle (h : handle) (p : Process) : Process :=
  {| client := client p; stream_handle := stream_handle p; save_handle := h |}.

(** Code of [Client], run on the object. *)
Definition in_client {A} (m : M World A) : M Process A :=
  fun p => let '(r, w') := m (client p) in (r, set_client w' p).

Definition set_running (b : bool) (w : World) : World :=
  {| running := b; current_frame := current_frame w;
     image_counter := image_counter w; stream_socket := stream_socket w;
     files := files w; trace := trace w |}.

(** [sock = socket.socket(...); sock.connect(...)] with the attribute
    assigned in between. *)
Definition open_socket (env : connect_env) (assign : handle -> Process -> Process)
    : M Process unit :=
  match create_error env with
  | Some e => raise e
  | None =>
      modify (assign (Socket false));;
      match connect_error env with
      | Some e => raise e
      | None => ret tt
      end
  end.

Definition address (ip : string) (port : N) : string :=
  ip +:+ ":" +:+ str_of_N port.

Definition connect_to_stream (cfg : config) (env : connect_env) : M Process bool :=
  try_except
    (open_socket env set_stream_handle;;
     in_client (print ("Connected to stream at "
                       +:+ address (go2_ip cfg) (stream_port cfg)));;
     ret true)
    (fun e =>
       in_client (print ("Failed to connect to stream: " +:+ exn_str e));;
       ret false).

Definition connect_to_save_server (cfg : config) (env : connect_env) : M Process bool :=
  try_except
    (open_socket env set_save_handle;;
     in_client (print ("Connected to save server at "
                       +:+ address (go2_ip cfg) (save_port cfg)));;
     ret true)
    (fun e =>
       in_client (print ("Failed to connect to save server: " +:+ exn_str e));;
       ret false).

(** [if sock: sock.close()]: a socket object is always true. *)
Definition close (h : handle) : handle :=
  match h with
  | NoSocket => NoSocket
  | Socket _ => Socket true
  end.

(** [os.path.abspath] of a plain relative name. *)
Definition abspath (cfg : config) (name : string) : string := path_join (cwd cfg) name.

Definition stop (cfg : config) : M Process unit :=
  in_client (modify (set_running false));;
  modify (fun p => set_stream_handle (close (stream_handle p)) p);;
  modify (fun p => set_save_handle (close (save_handle p)) p);;
  in_client
    (counter <- get image_counter;;
     print ("Camera client stopped. Total images captured: " +:+ str_of_N counter);;
     print ("Local images saved to: " +:+ abspath cfg local_save_dir)).

(** The test of the loop of line 176. *)
Definition still_waiting : M World bool :=
  cf <- get current_frame;;
  r <- get running;;
  ret (match cf with None => r | Some _ => false end).

(** Line 176-177: wait for the first frame.  During each [time.sleep(0.1)]
    the receiver thread may store into the slot; [arrivals] says what. *)
Fixpoint wait_for_first_frame (arrivals : list (option (option Frame))) : M World unit :=
  waiting <- still_waiting;;
  if (waiting : bool) then
    match arrivals with
    | [] => unfinished
    | p :: arrivals' => receiver_publishes p;; wait_for_first_frame arrivals'
    end
  else ret tt.

(** What the surroundings do during [start]. *)
Record start_env := {
  stream_net : connect_env;
  save_net : connect_env;
  arrivals : list (option (option Frame));
  ticks : list tick
}.

(** [start], lines 157-226.  The receiver thread started at line 172 shows
    through [arrivals] and through the [published] of the ticks. *)
Definition start (cfg : config) (env : start_env) : M Process unit :=
  try_finally
    (try_except
       (connected <- connect_to_stream cfg (stream_net env);;
        if negb connected then ret tt
        else
          connected <- connect_to_save_server cfg (save_net env);;
          if negb connected then ret tt
          else
            in_client (modify (set_running true));;
            in_client (print "Waiting for video stream...");;
            in_client (wait_for_first_frame (arrivals env));;
            in_client display_instructions;;
            in_client (display_loop (ticks env)))
       (fun e => in_client (print ("Client error: " +:+ exn_str e))))
    (stop cfg).

(** The object as [__init__] leaves it. *)
Definition fresh (stream : socket) : Process :=
  {| client := set_running false (initial_world stream);
     stream_handle := NoSocket; save_handle := NoSocket |}.

Definition closed_or_absent (h : handle) : bool :=
  match h with
  | Socket false => false
  | _ => true
  end.

End WithExternals.

Definition sample_config : config :=
  {| go2_ip := "192.168.123.18"; stream_port := 8888; save_port := 8889;
     cwd := "/home/user" |}.

Definition reachable : connect_env := {| create_error := None; connect_error := None |}.

Definition refused : connect_env :=
  {| create_error := None; connect_error := Some (OSError "Connection refused") |}.

(** Both servers are there, the first frame arrives during the second
    sleep, 'l' is pressed and then 'q'. *)
Definition sample_session : start_env :=
  {| stream_net := reachable; save_net := reachable;
     arrivals := [None; Some (Some [x01])];
     ticks := [sample_tick 108; sample_tick 113] |}.

(** The first frame of [sample_stream], and a frame whose payload unpickles
    under [strict_externals] to something that is not an image. *)
Definition sample_frame : bytes * bytes := ([x00; x00; x00; x03], [x61; x62; x63]).

Definition blank_frame : bytes * bytes := ([x00; x00; x00; x02], [x80; x00]).

Definition empty_frame : bytes * bytes := ([x00; x00; x00; x00], []).

End Session.

(* ===================================================================== *)
(** ** The two threads: waiting *)
(* ===================================================================== *)

Module Waiting.
Import PyStr Py Wire Client Threads.

Section WithExternals.
Context `{Externals}.

(** The receiver has not got past its first read of the stream [sock], or
    has ended on an exception; the slot is empty, the flag is up, the lock
    is free and the main thread is at line 176. *)
Definition before_first_frame (sock : socket) (s : state) : Prop :=
  pc_m s = MWait /\ slot s = None /\ flag s = true /\ lock s = None /\
  match pc_r s with
  | RWhile | RRecv => stream s = sock
  | RExcept _ | RDone => True
  | _ => False
  end.

End WithExternals.

End Waiting.

(* ===================================================================== *)
(** * Properties *)
(* ===================================================================== *)

(** ** The stream socket: framing *)

Section WireFacts.
Import Py Wire.

(** [recv] hands over a prefix of the pending bytes, no longer than asked
    for, and leaves the rest pending. *)
Lemma recv_pending (bufsize : nat) (sock : socket) :
  pending sock = (recv bufsize sock).1 ++ pending (recv bufsize sock).2.
Proof.
  unfold pending. induction sock as [|seg sock IH]; [reflexivity|].
  destruct seg as [|b seg]; [exact IH|].
  cbn [recv fst snd].
  destruct (skipn bufsize (b :: seg)) as [|b' seg'] eqn:Hdrop.
  - rewrite <- (firstn_skipn bufsize (b :: seg)) at 1.
    rewrite Hdrop, app_nil_r. reflexivity.
  - cbn [concat]. rewrite <- Hdrop, app_assoc, firstn_skipn. reflexivity.
Qed.

Lemma recv_length (bufsize : nat) (sock : socket) :
  length (recv bufsize sock).1 <= bufsize.
Proof.
  induction sock as [|seg sock IH]; [cbn; lia|].
  destruct seg as [|b seg]; [exact IH|].
  cbn [recv fst]. rewrite length_firstn. lia.
Qed.

(** An empty result is the end of the stream (or a request for nothing). *)
Lemma recv_empty (bufsize : nat) (sock : socket) :
  0 < bufsize -> (recv bufsize sock).1 = [] -> pending sock = [].
Proof.
  intros Hpos. unfold pending.
  induction sock as [|seg sock IH]; [reflexivity|].
  destruct seg as [|b seg]; [exact IH|].
  cbn [recv fst]. destruct bufsize; [lia|]. discriminate.
Qed.

Lemma recv_closed (bufsize : nat) (sock : socket) :
  pending sock = [] -> recv bufsize sock = ([], []).
Proof.
  unfold pending. induction sock as [|seg sock IH]; [reflexivity|].
  destruct seg as [|b seg]; [exact IH|]. discriminate.
Qed.

Lemma fits_prefix : fits (fun missing => missing).
Proof. intros m Hm. lia. Qed.

Lemma fits_payload : fits (fun missing => Nat.min 4096 missing).
Proof. intros m Hm. lia. Qed.

(** When the stream holds the missing bytes, the loop returns with exactly
    them appended, whatever the segments are. *)
Lemma recv_loop_enough bufsize (Hfit : fits bufsize) target :
  forall fuel data sock,
    length data <= target ->
    target - length data <= fuel ->
    target - length data <= length (pending sock) ->
    exists sock',
      recv_loop fuel bufsize target data sock
        = (Return (data ++ firstn (target - length data) (pending sock)), sock') /\
      pending sock' = skipn (target - length data) (pending sock).
Proof.
  induction fuel as [|fuel IH]; intros data sock Hle Hfuel Hhave.
  - assert (target - length data = 0) as Hz by lia.
    exists sock. cbn [recv_loop].
    destruct (Nat.ltb_spec (length data) target); [lia|].
    rewrite Hz. cbn. rewrite app_nil_r. auto.
  - cbn [recv_loop].
    destruct (Nat.ltb_spec (length data) target) as [Hlt|Hge].
    + set (want := bufsize (target - length data)).
      assert (0 < want <= target - length data) as Hwant by (apply Hfit; lia).
      pose proof (recv_pending want sock) as Hsplit.
      pose proof (recv_length want sock) as Hlen.
      pose proof (recv_empty want sock (proj1 Hwant)) as Hempty.
      destruct (recv want sock) as [chunk sock1]. cbn [fst snd] in *.
      destruct chunk as [|b chunk].
      { rewrite Hempty in Hhave by reflexivity. cbn in Hhave. lia. }
      destruct (IH (data ++ b :: chunk) sock1) as (sock' & Hrun & Hrest).
      * rewrite length_app. lia.
      * rewrite length_app. cbn [length] in *. lia.
      * rewrite Hsplit, length_app in Hhave. rewrite length_app. lia.
      * exists sock'. rewrite Hrun, Hrest, Hsplit, length_app.
        assert (target - length data
                = length (b :: chunk) + (target - (length data + length (b :: chunk))))
          as Hsum by (cbn [length] in *; lia).
        rewrite Hsum. clear Hsum.
        generalize (target - (length data + length (b :: chunk))) as m.
        generalize (b :: chunk) as got. intros got m. split.
        -- rewrite <- app_assoc, take_app_add. reflexivity.
        -- rewrite drop_app_add. reflexivity.
    + exists sock. replace (target - length data) with 0 by lia.
      cbn. rewrite app_nil_r. auto.
Qed.

(** When the stream ends before, the loop raises [ConnectionError]. *)
Lemma recv_loop_short bufsize (Hfit : fits bufsize) target :
  forall fuel data sock,
    target - length data <= fuel ->
    length (pending sock) < target - length data ->
    exists sock',
      recv_loop fuel bufsize target data sock
        = (Raise (ConnectionError "Connection lost"), sock') /\
      pending sock' = [].
Proof.
  induction fuel as [|fuel IH]; intros data sock Hfuel Hshort; [lia|].
  cbn [recv_loop].
  destruct (Nat.ltb_spec (length data) target) as [Hlt|Hge]; [|lia].
  set (want := bufsize (target - length data)).
  assert (0 < want <= target - length data) as Hwant by (apply Hfit; lia).
  pose proof (recv_pending want sock) as Hsplit.
  pose proof (recv_length want sock) as Hlen.
  destruct (recv want sock) as [chunk sock1] eqn:Hrecv. cbn [fst snd] in *.
  destruct chunk as [|b chunk].
  - exists sock1. split; [reflexivity|].
    pose proof (recv_empty want sock (proj1 Hwant)) as Hempty.
    rewrite Hrecv in Hempty. specialize (Hempty eq_refl).
    rewrite Hsplit in Hempty. exact Hempty.
  - apply IH.
    + rewrite length_app. cbn [length] in *. lia.
    + rewrite Hsplit, length_app in Hshort. rewrite length_app. lia.
Qed.

Lemma recv_exactly_enough bufsize target sock :
  fits bufsize ->
  target <= length (pending sock) ->
  exists sock',
    recv_exactly bufsize target sock = (Return (firstn target (pending sock)), sock') /\
    pending sock' = skipn target (pending sock).
Proof.
  intros Hfit Hhave. unfold recv_exactly.
  destruct (recv_loop_enough bufsize Hfit target target [] sock)
    as (sock' & Hrun & Hrest); cbn [length]; try lia.
  rewrite Nat.sub_0_r in Hrun, Hrest. eauto.
Qed.

Lemma recv_exactly_short bufsize target sock :
  fits bufsize ->
  length (pending sock) < target ->
  exists sock',
    recv_exactly bufsize target sock
      = (Raise (ConnectionError "Connection lost"), sock') /\
    pending sock' = [].
Proof.
  intros Hfit Hshort. unfold recv_exactly.
  apply (recv_loop_short bufsize Hfit); cbn [length]; lia.
Qed.

Lemma unpack_L_length data frame_size :
  unpack_L data = Return frame_size -> length data = 4.
Proof.
  destruct data as [|b0 [|b1 [|b2 [|b3 [|b4 data]]]]]; cbn; intros Hu;
    try discriminate; reflexivity.
Qed.

(** A frame that is there in full is read in full, and nothing after it. *)
Lemma recv_frame_data_complete sock (prefix payload rest : bytes) frame_size :
  pending sock = prefix ++ payload ++ rest ->
  unpack_L prefix = Return frame_size ->
  length payload = N.to_nat frame_size ->
  exists sock1 sock2,
    recv_exactly (fun missing => missing) 4 sock = (Return prefix, sock1) /\
    pending sock1 = payload ++ rest /\
    recv_exactly (fun missing => Nat.min 4096 missing) (N.to_nat frame_size) sock1
      = (Return payload, sock2) /\
    pending sock2 = rest /\
    recv_frame_data sock = (Return payload, sock2).
Proof.
  intros Hpend Hunpack Hlen.
  pose proof (unpack_L_length _ _ Hunpack) as H4.
  destruct (recv_exactly_enough (fun m => m) 4 sock fits_prefix)
    as (sock1 & Hrun1 & Hrest1).
  { rewrite Hpend, length_app. lia. }
  rewrite Hpend in Hrun1, Hrest1.
  rewrite take_app_length' in Hrun1 by (symmetry; exact H4).
  rewrite drop_app_length' in Hrest1 by (symmetry; exact H4).
  destruct (recv_exactly_enough (fun m => Nat.min 4096 m) (N.to_nat frame_size) sock1
              fits_payload) as (sock2 & Hrun2 & Hrest2).
  { rewrite Hrest1, length_app. lia. }
  rewrite Hrest1 in Hrun2, Hrest2.
  rewrite take_app_length' in Hrun2 by (symmetry; exact Hlen).
  rewrite drop_app_length' in Hrest2 by (symmetry; exact Hlen).
  exists sock1, sock2. repeat split; try assumption.
  unfold recv_frame_data. rewrite Hrun1, Hunpack. exact Hrun2.
Qed.

(** A stream that ends inside a frame makes the reader raise
    [ConnectionError]. *)
Lemma recv_frame_data_incomplete sock :
  incomplete (pending sock) = true ->
  exists sock',
    recv_frame_data sock = (Raise (ConnectionError "Connection lost"), sock') /\
    pending sock' = [].
Proof.
  unfold incomplete. intros Hinc. unfold recv_frame_data.
  destruct (Nat.ltb_spec (length (pending sock)) 4) as [Hshort|Hlong].
  - destruct (recv_exactly_short (fun m => m) 4 sock fits_prefix Hshort)
      as (sock' & -> & Hrest). eauto.
  - cbn [orb] in Hinc.
    destruct (recv_exactly_enough (fun m => m) 4 sock fits_prefix Hlong)
      as (sock1 & -> & Hrest1).
    destruct (unpack_L (firstn 4 (pending sock))) as [frame_size| |];
      try discriminate.
    apply Nat.ltb_lt in Hinc.
    apply (recv_exactly_short _ _ _ fits_payload).
    rewrite Hrest1, length_drop. exact Hinc.
Qed.

(** The reader returns or raises; the iteration bound is never the reason
    it stops. *)
Lemma recv_loop_finishes bufsize (Hfit : fits bufsize) target :
  forall fuel data sock,
    target - length data <= fuel ->
    (recv_loop fuel bufsize target data sock).1 <> Unfinished.
Proof.
  induction fuel as [|fuel IH]; intros data sock Hfuel; cbn [recv_loop].
  - destruct (Nat.ltb_spec (length data) target); [lia|]. discriminate.
  - destruct (Nat.ltb_spec (length data) target) as [Hlt|Hge]; [|discriminate].
    destruct (recv _ sock) as [chunk sock1].
    destruct chunk as [|b chunk]; [discriminate|].
    apply IH. rewrite length_app. cbn [length]. lia.
Qed.

Lemma recv_frame_data_finishes sock :
  (recv_frame_data sock).1 <> Unfinished.
Proof.
  unfold recv_frame_data, recv_exactly.
  pose proof (recv_loop_finishes _ fits_prefix 4 4 [] sock) as H1.
  destruct (recv_loop 4 _ 4 [] sock) as [[size_data| |] sock1];
    cbn [fst] in *; try discriminate.
  - destruct (unpack_L size_data) as [frame_size| |] eqn:Hunpack; try discriminate.
    + apply (recv_loop_finishes _ fits_payload). cbn [length]. lia.
    + exfalso. revert Hunpack. unfold unpack_L.
      destruct size_data as [|b0 [|b1 [|b2 [|b3 [|b4 rest]]]]]; discriminate.
  - apply H1. cbn [length]. lia.
Qed.

(** What a loop returns has the length that was asked for, and is what the
    socket no longer holds. *)
Lemma recv_loop_returns bufsize target :
  forall fuel data sock result sock',
    recv_loop fuel bufsize target data sock = (Return result, sock') ->
    exists got,
      result = data ++ got /\ pending sock = got ++ pending sock' /\
      target <= length result.
Proof.
  induction fuel as [|fuel IH]; intros data sock result sock'; cbn [recv_loop];
    destruct (Nat.ltb_spec (length data) target) as [Hlt|Hge]; intros Hrun;
    try discriminate.
  - injection Hrun as <- <-. exists []. rewrite app_nil_r. auto.
  - pose proof (recv_pending (bufsize (target - length data)) sock) as Hsplit.
    destruct (recv _ sock) as [chunk sock1]. cbn [fst snd] in Hsplit.
    destruct chunk as [|b chunk]; [discriminate|].
    destruct (IH _ _ _ _ Hrun) as (got & -> & Hpend & Hlen).
    exists ((b :: chunk) ++ got). rewrite Hsplit, Hpend, !app_assoc. auto.
  - injection Hrun as <- <-. exists []. rewrite app_nil_r. auto.
Qed.

(** A frame read takes four bytes at least off the socket. *)
Lemma recv_frame_data_progress sock frame_data sock' :
  recv_frame_data sock = (Return frame_data, sock') ->
  4 + length (pending sock') <= length (pending sock).
Proof.
  unfold recv_frame_data, recv_exactly. intros Hrun.
  destruct (recv_loop 4 _ 4 [] sock) as [[size_data| |] sock1] eqn:Hrun1;
    try discriminate.
  destruct (recv_loop_returns _ _ _ _ _ _ _ Hrun1) as (got1 & -> & Hp1 & Hl1).
  destruct (unpack_L ([] ++ got1)) as [frame_size| |]; try discriminate.
  destruct (recv_loop_returns _ _ _ _ _ _ _ Hrun) as (got2 & -> & Hp2 & Hl2).
  rewrite Hp1, Hp2, !length_app. cbn [app] in Hl1. lia.
Qed.

End WireFacts.

(** ** Strings *)

Section StringFacts.
Import PyStr.

Lemma app_cons (c : ascii) (s t : string) : String c s +:+ t = String c (s +:+ t).
Proof. reflexivity. Qed.

Lemma app_empty_l (t : string) : "" +:+ t = t.
Proof. reflexivity. Qed.

Lemma app_empty_r (s : string) : s +:+ "" = s.
Proof. induction s as [|c s IH]; [reflexivity|]. rewrite app_cons, IH. reflexivity. Qed.

Lemma str_app_assoc (s t u : string) : (s +:+ t) +:+ u = s +:+ (t +:+ u).
Proof.
  induction s as [|c s IH]; [reflexivity|]. rewrite !app_cons, IH. reflexivity.
Qed.

Lemma str_length_app (s t : string) :
  String.length (s +:+ t) = String.length s + String.length t.
Proof.
  induction s as [|c s IH]; [reflexivity|].
  rewrite app_cons. cbn [String.length]. rewrite IH. reflexivity.
Qed.

Lemma substring_whole (s t : string) :
  String.substring 0 (String.length s) (s +:+ t) = s.
Proof.
  induction s as [|c s IH].
  - destruct t; reflexivity.
  - rewrite app_cons. cbn [String.length String.substring]. rewrite IH. reflexivity.
Qed.

(** [(s + t)[:-len(t)] == s] *)
Lemma drop_last_app (s t : string) : drop_last (String.length t) (s +:+ t) = s.
Proof.
  unfold drop_last. rewrite str_length_app.
  replace (String.length s + String.length t - String.length t)
    with (String.length s) by lia.
  apply substring_whole.
Qed.

(** [s.startswith(p)] says that [s] is [p] followed by something. *)
Lemma startswith_app (p rest : string) : startswith (p +:+ rest) p = true.
Proof.
  unfold startswith. induction p as [|c p IH]; [destruct rest; reflexivity|].
  rewrite app_cons. cbn [String.prefix]. destruct (ascii_dec c c); [exact IH|congruence].
Qed.

Lemma startswith_inv (s p : string) :
  startswith s p = true -> exists rest, s = p +:+ rest.
Proof.
  unfold startswith. revert s. induction p as [|c p IH]; intros s Hp.
  - exists s. reflexivity.
  - destruct s as [|c' s]; [discriminate|]. cbn [String.prefix] in Hp.
    destruct (ascii_dec c c') as [<-|]; [|discriminate].
    destruct (IH s Hp) as [rest ->]. exists rest. reflexivity.
Qed.

Lemma replicate_char_snoc (k : nat) (c : ascii) :
  replicate_char k c +:+ String c "" = String c (replicate_char k c).
Proof.
  induction k as [|k IH]; [reflexivity|].
  cbn [replicate_char]. rewrite app_cons, IH. reflexivity.
Qed.

Lemma replicate_char_length (k : nat) (c : ascii) :
  String.length (replicate_char k c) = k.
Proof. induction k as [|k IH]; [reflexivity|]. cbn. rewrite IH. reflexivity. Qed.

Lemma fixed_dec_0 (w : nat) : fixed_dec w 0 = replicate_char w "0"%char.
Proof.
  induction w as [|w IH]; [reflexivity|].
  cbn [fixed_dec]. change (0 / 10)%N with 0%N. rewrite IH.
  apply replicate_char_snoc.
Qed.

Lemma fixed_dec_length (w : nat) (n : N) : String.length (fixed_dec w n) = w.
Proof.
  revert n. induction w as [|w IH]; intros n; [reflexivity|].
  cbn [fixed_dec]. rewrite str_length_app, IH. cbn. lia.
Qed.

(** The digits of a number split into the high and the low ones. *)
Lemma fixed_dec_split (a b : nat) (n : N) :
  fixed_dec (a + b) n = fixed_dec a (n / 10 ^ N.of_nat b)%N +:+ fixed_dec b n.
Proof.
  revert n. induction b as [|b IH]; intros n.
  - rewrite Nat.add_0_r. cbn [fixed_dec N.of_nat]. rewrite N.pow_0_r, N.div_1_r.
    symmetry. apply app_empty_r.
  - rewrite Nat.add_succ_r. cbn [fixed_dec]. rewrite IH, str_app_assoc.
    rewrite Nat2N.inj_succ, N.pow_succ_r', N.Div0.div_div by lia. reflexivity.
Qed.

Lemma dec_fuel_S (fuel : nat) (n : N) :
  dec_fuel (S fuel) n
  = if (n <? 10)%N then String (digit_char n) ""
    else dec_fuel fuel (n / 10)%N +:+ String (digit_char (n mod 10)%N) "".
Proof. reflexivity. Qed.

(** Enough fuel, and a number below [10^(w+1)]: the digits [str] produces
    are the [w+1] fixed digits without their leading zeros. *)
Lemma dec_fuel_fixed :
  forall (fuel w : nat) (n : N),
    (n < 10 ^ N.of_nat (S fuel))%N ->
    (n < 10 ^ N.of_nat (S w))%N ->
    String.length (dec_fuel (S fuel) n) <= S w /\
    fixed_dec (S w) n
      = replicate_char (S w - String.length (dec_fuel (S fuel) n)) "0"%char
        +:+ dec_fuel (S fuel) n.
Proof.
  induction fuel as [|fuel IH]; intros w n Hfuel Hw.
  - change (10 ^ N.of_nat 1)%N with 10%N in Hfuel.
    cbn [dec_fuel]. destruct (N.ltb_spec n 10) as [_|Hge]; [|lia].
    cbn [String.length]. split; [lia|].
    cbn [fixed_dec]. rewrite N.div_small, N.mod_small, fixed_dec_0 by lia.
    replace (S w - 1) with w by lia. reflexivity.
  - rewrite dec_fuel_S. destruct (N.ltb_spec n 10) as [Hlt|Hge].
    + cbn [String.length]. split; [lia|].
      cbn [fixed_dec]. rewrite N.div_small, N.mod_small, fixed_dec_0 by lia.
      replace (S w - 1) with w by lia. reflexivity.
    + destruct w as [|w].
      { change (10 ^ N.of_nat 1)%N with 10%N in Hw. lia. }
      rewrite Nat2N.inj_succ, N.pow_succ_r' in Hfuel, Hw.
      destruct (IH w (n / 10)%N) as [Hlen Heq].
      * apply N.Div0.div_lt_upper_bound; lia.
      * apply N.Div0.div_lt_upper_bound; lia.
      * rewrite str_length_app. cbn [String.length]. split; [lia|].
        cbn [fixed_dec] in *. rewrite Heq, str_app_assoc.
        replace (S (S w) - (String.length (dec_fuel (S fuel) (n / 10)) + 1))
          with (S w - String.length (dec_fuel (S fuel) (n / 10))) by lia.
        reflexivity.
Qed.

(** A number from [10^w] on has more than [w] digits. *)
Lemma dec_fuel_long :
  forall (fuel w : nat) (n : N),
    (n < 10 ^ N.of_nat (S fuel))%N ->
    (10 ^ N.of_nat w <= n)%N ->
    w < String.length (dec_fuel (S fuel) n).
Proof.
  induction fuel as [|fuel IH]; intros w n Hfuel Hw.
  - change (10 ^ N.of_nat 1)%N with 10%N in Hfuel.
    cbn [dec_fuel]. destruct (N.ltb_spec n 10) as [_|Hge]; [|lia].
    cbn [String.length]. destruct w as [|w]; [lia|].
    rewrite Nat2N.inj_succ, N.pow_succ_r' in Hw.
    assert (1 <= 10 ^ N.of_nat w)%N by (apply N.lt_pred_le, N.neq_0_lt_0, N.pow_nonzero; lia).
    lia.
  - rewrite dec_fuel_S. destruct (N.ltb_spec n 10) as [Hlt|Hge].
    + cbn [String.length]. destruct w as [|w]; [lia|].
      rewrite Nat2N.inj_succ, N.pow_succ_r' in Hw.
      assert (1 <= 10 ^ N.of_nat w)%N by (apply N.lt_pred_le, N.neq_0_lt_0, N.pow_nonzero; lia).
      lia.
    + rewrite str_length_app. cbn [String.length].
      destruct w as [|w]; [lia|].
      rewrite Nat2N.inj_succ, N.pow_succ_r' in Hfuel, Hw.
      assert (w < String.length (dec_fuel (S fuel) (n / 10)%N)); [|lia].
      apply IH.
      * apply N.Div0.div_lt_upper_bound; lia.
      * apply N.div_le_lower_bound; lia.
Qed.

(** The fuel of [str_of_N] is enough. *)
Lemma str_of_N_fuel (n : N) : (n < 10 ^ N.of_nat (S (N.to_nat (N.log2 n))))%N.
Proof.
  rewrite Nat2N.inj_succ, N2Nat.id.
  destruct (N.eq_dec n 0%N) as [->|Hpos]; [reflexivity|].
  apply N.lt_le_trans with (2 ^ N.succ (N.log2 n))%N.
  - apply N.log2_spec. lia.
  - apply N.pow_le_mono_l. lia.
Qed.

(** [f"{n:0{w}d}"] of a number that fits [w] digits is its [w] digits. *)
Lemma format_0d_fixed (w : nat) (n : N) :
  0 < w -> (n < 10 ^ N.of_nat w)%N -> format_0d w n = fixed_dec w n.
Proof.
  intros Hw Hn. destruct w as [|w]; [lia|].
  unfold format_0d, zfill, str_of_N.
  destruct (dec_fuel_fixed (N.to_nat (N.log2 n)) w n (str_of_N_fuel n) Hn) as [_ ->].
  reflexivity.
Qed.

(** ... and of a larger number it is [str(n)], more than [w] characters. *)
Lemma format_0d_long (w : nat) (n : N) :
  (10 ^ N.of_nat w <= n)%N ->
  format_0d w n = str_of_N n /\ w < String.length (format_0d w n).
Proof.
  intros Hn. unfold format_0d, zfill.
  pose proof (dec_fuel_long (N.to_nat (N.log2 n)) w n (str_of_N_fuel n) Hn) as Hlen.
  fold (str_of_N n) in Hlen.
  replace (w - String.length (str_of_N n)) with 0 by lia.
  split; [reflexivity|exact Hlen].
Qed.

Lemma format_0d_length (w : nat) (n : N) : w <= String.length (format_0d w n).
Proof.
  unfold format_0d, zfill. rewrite str_length_app, replicate_char_length. lia.
Qed.

(** The time stamp of a file name: the date, the time and the milliseconds. *)
Lemma timestamp_fixed (t : datetime) :
  valid_datetime t ->
  drop_last 3 (strftime_stamp t)
  = fixed_dec 4 (year t) +:+ fixed_dec 2 (month t) +:+ fixed_dec 2 (day t) +:+ "_" +:+
    fixed_dec 2 (hour t) +:+ fixed_dec 2 (minute t) +:+ fixed_dec 2 (second t) +:+ "_" +:+
    fixed_dec 3 (microsecond t / 1000)%N.
Proof.
  intros (Hy & Hmo & Hd & Hh & Hmi & Hs & Hus). unfold strftime_stamp.
  rewrite !format_0d_fixed by (try lia; cbn; lia).
  change 6 with (3 + 3). rewrite fixed_dec_split.
  change (10 ^ N.of_nat 3)%N with 1000%N.
  rewrite <- !str_app_assoc.
  rewrite <- (fixed_dec_length 3 (microsecond t)) at 1.
  apply drop_last_app.
Qed.

End StringFacts.

(** ** Code that always returns *)

Section NeverFails.
Import Py.
Context {W : Type}.

Lemma never_fails_ret {A} (a : A) : never_fails (W:=W) (ret a).
Proof. intros w. unfold ret. eauto. Qed.

Lemma never_fails_get {A} (field : W -> A) : never_fails (get field).
Proof. intros w. unfold get. eauto. Qed.

Lemma never_fails_modify (f : W -> W) : never_fails (modify f).
Proof. intros w. unfold modify. eauto. Qed.

Lemma never_fails_bind {A B} (m : M W A) (k : A -> M W B) :
  never_fails m -> (forall a, never_fails (k a)) -> never_fails (bind m k).
Proof.
  intros Hm Hk w. unfold bind. destruct (Hm w) as (a & w1 & ->). apply Hk.
Qed.

Lemma never_fails_try_finally {A} (body : M W A) (cleanup : M W unit) :
  never_fails body -> never_fails cleanup -> never_fails (try_finally body cleanup).
Proof.
  intros Hb Hc w. unfold try_finally.
  destruct (Hb w) as (a & w1 & ->). destruct (Hc w1) as (u & w2 & ->). eauto.
Qed.

(** A handler that returns makes the whole [try] return, provided the body
    does not stop short. *)
Lemma never_fails_try_except {A} (body : M W A) (handler : exn -> M W A) :
  (forall w, (body w).1 <> Unfinished) ->
  (forall e, never_fails (handler e)) ->
  never_fails (try_except body handler).
Proof.
  intros Hb Hh w. unfold try_except. specialize (Hb w).
  destruct (body w) as [[a|e|] w1]; cbn [fst] in Hb; [eauto|apply Hh|congruence].
Qed.

End NeverFails.

(** ** CameraClient: the save operations *)

Section ClientFacts.
Import PyStr Py Wire Client.
Context `{Externals}.

Ltac run_py :=
  cbv beta iota zeta delta
    [bind ret raise unfinished get modify emit print call of_result
     try_except try_finally with_frame_lock incr_image_counter
     sock_send sock_recv imwrite timestamp_now display_instructions
     receiver_publishes].

(** [save_image_remote], case by case. *)
Lemma save_image_remote_eq srv filename w :
  save_image_remote srv filename w =
  let command := if truthy filename then "SAVE:" +:+ default "" filename else "SAVE" in
  let failed e w' :=
    (Return false, log (EvPrint ("Error saving remote image: " +:+ exn_str e)) w') in
  let w1 := log (EvSend command) w in
  match send_error srv with
  | Some e => failed e w1
  | None =>
      let w2 := log (EvRecv 1024) w1 in
      match reply srv with
      | inl e => failed e w2
      | inr raw =>
          match decode_utf8 (firstn 1024 raw) with
          | inl e => failed e w2
          | inr response =>
              if startswith response "SAVED:" then
                match split1_snd ":" response with
                | Some filepath =>
                    (Return true, log (EvPrint ("✓ Image saved on GO2: " +:+ filepath)) w2)
                | None => failed (IndexError "list index out of range") w2
                end
              else
                (Return false, log (EvPrint ("✗ Failed to save on GO2: " +:+ response)) w2)
          end
      end
  end.
Proof.
  unfold save_image_remote. run_py.
  destruct (send_error srv) as [e|]; [reflexivity|].
  destruct (reply srv) as [e|raw]; [reflexivity|].
  destruct (decode_utf8 (firstn 1024 raw)) as [e|response]; [reflexivity|].
  destruct (startswith response "SAVED:"); [|reflexivity].
  destruct (split1_snd ":" response); reflexivity.
Qed.

(** [save_image_local], case by case. *)
Lemma save_image_local_eq env filename w :
  save_image_local env filename w =
  match current_frame w with
  | None =>
      (Return false,
       log EvRelease (log (EvPrint "✗ No frame available to save") (log EvAcquire w)))
  | Some f =>
      let w1 := log EvRelease (log EvCopy (log EvAcquire w)) in
      let '(name, w2) :=
        match filename with
        | None =>
            (dataset_filename (image_counter w + 1) (drop_last 3 (strftime_stamp (now env))),
             log EvNow (set_image_counter (image_counter w + 1) w1))
        | Some name => (name, w1)
        end in
      let filepath := path_join local_save_dir name in
      let w3 := log (EvImwrite filepath 95) w2 in
      match imwrite_result env with
      | inl e =>
          (Return false, log (EvPrint ("Error saving local image: " +:+ exn_str e)) w3)
      | inr true =>
          (Return true,
           log (EvPrint ("✓ Image saved locally: " +:+ filepath)) (write_file filepath f w3))
      | inr false =>
          (Return false, log (EvPrint ("✗ Failed to save image: " +:+ filepath)) w3)
      end
  end.
Proof.
  unfold save_image_local. run_py. cbn [current_frame log].
  destruct (current_frame w) as [f|]; [|reflexivity].
  destruct filename as [name|]; cbn [image_counter log set_image_counter];
    destruct (imwrite_result env) as [e|[|]]; reflexivity.
Qed.

Lemma startswith_SAVED_split (response : string) :
  startswith response "SAVED:" = true ->
  exists path,
    response = "SAVED:" +:+ path /\ split1 ":" response = ("SAVED", Some path).
Proof.
  intros Hstarts. destruct (startswith_inv _ _ Hstarts) as [path ->].
  exists path. split; reflexivity.
Qed.

(** C4. Whatever text arrives on the command socket: when it starts with
    [SAVED:] the remote save reports success and the path it extracts (and
    prints) is all that follows the first colon; any other text makes it
    report failure and print the whole text. *)
Theorem remote_save_parses_reply srv filename w raw response :
  send_error srv = None ->
  reply srv = inr raw ->
  decode_utf8 (firstn 1024 raw) = inr response ->
  let command := if truthy filename then "SAVE:" +:+ default "" filename else "SAVE" in
  let w2 := log (EvRecv 1024) (log (EvSend command) w) in
  (startswith response "SAVED:" = true ->
   exists path,
     response = "SAVED:" +:+ path /\
     split1 ":" response = ("SAVED", Some path) /\
     save_image_remote srv filename w
       = (Return true, log (EvPrint ("✓ Image saved on GO2: " +:+ path)) w2)) /\
  (startswith response "SAVED:" = false ->
   save_image_remote srv filename w
     = (Return false, log (EvPrint ("✗ Failed to save on GO2: " +:+ response)) w2)).
Proof.
  intros Hsend Hreply Hdecode command w2.
  rewrite save_image_remote_eq, Hsend, Hreply, Hdecode. cbv zeta. split.
  - intros Hstarts. rewrite Hstarts.
    destruct (startswith_SAVED_split response Hstarts) as (path & Hresp & Hsplit).
    exists path. unfold split1_snd. rewrite Hsplit. auto.
  - intros Hother. rewrite Hother. reflexivity.
Qed.

Lemma never_fails_emit ev : never_fails (emit ev).
Proof. apply never_fails_modify. Qed.

Lemma save_image_remote_never_fails srv filename :
  never_fails (save_image_remote srv filename).
Proof.
  intros w. rewrite save_image_remote_eq. cbv zeta.
  destruct (send_error srv); [eauto|].
  destruct (reply srv); [eauto|].
  destruct (decode_utf8 _); [eauto|].
  destruct (startswith _ _); [|eauto].
  destruct (split1_snd _ _); eauto.
Qed.

Lemma save_image_local_never_fails env filename :
  never_fails (save_image_local env filename).
Proof.
  intros w. rewrite save_image_local_eq.
  destruct (current_frame w); [|eauto].
  destruct filename; cbv zeta beta iota; destruct (imwrite_result env) as [?|[|]]; eauto.
Qed.

Ltac never_fails_step :=
  lazymatch goal with
  | |- never_fails (bind _ _) => apply never_fails_bind; [|intros ?]
  | |- never_fails (ret _) => apply never_fails_ret
  | |- never_fails (get _) => apply never_fails_get
  | |- never_fails (modify _) => apply never_fails_modify
  | |- never_fails (emit _) => apply never_fails_emit
  | |- never_fails (try_finally _ _) => apply never_fails_try_finally
  | |- never_fails (save_image_remote _ _) => apply save_image_remote_never_fails
  | |- never_fails (save_image_local _ _) => apply save_image_local_never_fails
  | |- never_fails (if ?c then _ else _) => destruct c
  | |- never_fails (match ?x with _ => _ end) => destruct x
  end.

Lemma show_frame_never_fails : never_fails show_frame.
Proof. unfold show_frame, with_frame_lock. repeat never_fails_step. Qed.

Lemma handle_key_never_fails t : never_fails (handle_key t).
Proof.
  unfold handle_key, incr_image_counter, timestamp_now, display_instructions, print.
  repeat never_fails_step.
Qed.

Lemma iteration_never_fails t : never_fails (iteration t).
Proof.
  unfold iteration, receiver_publishes.
  repeat never_fails_step;
    auto using show_frame_never_fails, handle_key_never_fails.
Qed.

(** C7. Whatever the command socket and the file system do, both save
    operations return a boolean: no exception leaves them.  A socket
    exception and a failed or raising write give [False] and a line for the
    operator; and an iteration of the display loop never raises. *)
Theorem saves_never_raise srv env filename w t :
  (exists b w', save_image_remote srv filename w = (Return b, w')) /\
  (exists b w', save_image_local env filename w = (Return b, w')) /\
  (forall e, send_error srv = Some e \/ (send_error srv = None /\ reply srv = inl e) ->
     exists w', save_image_remote srv filename w = (Return false, w') /\
       last (trace w') = Some (EvPrint ("Error saving remote image: " +:+ exn_str e))) /\
  (forall f, current_frame w = Some f ->
     match imwrite_result env with
     | inr true => True
     | inr false =>
         exists w' filepath, save_image_local env filename w = (Return false, w') /\
           last (trace w') = Some (EvPrint ("✗ Failed to save image: " +:+ filepath))
     | inl e =>
         exists w', save_image_local env filename w = (Return false, w') /\
           last (trace w') = Some (EvPrint ("Error saving local image: " +:+ exn_str e))
     end) /\
  (exists ctl w', iteration t w = (Return ctl, w')).
Proof.
  repeat split.
  - apply save_image_remote_never_fails.
  - apply save_image_local_never_fails.
  - intros e [Hsend|[Hsend Hreply]]; rewrite save_image_remote_eq; cbv zeta;
      rewrite Hsend; [|rewrite Hreply]; eexists; (split; [reflexivity|]);
      cbn [trace log]; apply last_snoc.
  - intros f Hframe. rewrite save_image_local_eq, Hframe.
    destruct filename; cbv zeta beta iota; destruct (imwrite_result env) as [e|[|]];
      try exact I; repeat eexists; cbn [trace log]; apply last_snoc.
  - apply iteration_never_fails.
Qed.

Lemma imwrite_paths_app (tr1 tr2 : list event) :
  imwrite_paths (tr1 ++ tr2) = imwrite_paths tr1 ++ imwrite_paths tr2.
Proof.
  induction tr1 as [|ev tr1 IH]; [reflexivity|].
  destruct ev; cbn [imwrite_paths app]; rewrite IH; reflexivity.
Qed.

(** C6. Without a frame the local save reports failure and touches no
    file.  With one, it copies the frame between taking and releasing the
    lock, and only then reads the clock (when it has to make up a name) and
    writes the file. *)
Theorem local_save_copies_under_lock env filename w :
  (current_frame w = None ->
   exists w',
     save_image_local env filename w = (Return false, w') /\
     trace w' = trace w ++ [EvAcquire; EvPrint "✗ No frame available to save"; EvRelease] /\
     files w' = files w) /\
  (forall f, current_frame w = Some f ->
   exists b w' filepath line,
     let io := (if filename is None then [EvNow] else [])
               ++ [EvImwrite filepath 95; EvPrint line] in
     save_image_local env filename w = (Return b, w') /\
     trace w' = trace w ++ [EvAcquire; EvCopy; EvRelease] ++ io /\
     lock_discipline false ([EvAcquire; EvCopy; EvRelease] ++ io) = true).
Proof.
  split.
  - intros Hnone. rewrite save_image_local_eq, Hnone.
    eexists. split; [reflexivity|]. cbn [trace files log].
    rewrite <- !app_assoc. auto.
  - intros f Hframe. rewrite save_image_local_eq, Hframe.
    destruct filename as [name|]; cbv zeta beta iota;
      destruct (imwrite_result env) as [e|[|]];
      do 4 eexists; (split; [reflexivity|]);
      cbn [trace log write_file set_image_counter];
      rewrite <- !app_assoc; split; reflexivity.
Qed.

(** A local save without a name, with a frame: the counter and the path. *)
Lemma save_image_local_generated env w f :
  current_frame w = Some f ->
  let w' := (save_image_local env None w).2 in
  image_counter w' = (image_counter w + 1)%N /\
  imwrite_paths (trace w')
    = imwrite_paths (trace w)
      ++ [path_join local_save_dir
            (dataset_filename (image_counter w + 1)
               (drop_last 3 (strftime_stamp (now env))))].
Proof.
  intros Hframe. cbv zeta. rewrite save_image_local_eq, Hframe. cbv zeta beta iota.
  destruct (imwrite_result env) as [e|[|]];
    (split; [reflexivity|]);
    cbn [snd trace log write_file set_image_counter];
    rewrite !imwrite_paths_app; cbn [imwrite_paths];
    rewrite !app_nil_r; reflexivity.
Qed.

(** C10. A local save that is given a name leaves the counter alone,
    whatever happens; so does one without a name when there is no frame.
    Without a name and with a frame the counter goes up by one, whatever the
    write does afterwards, and the name written to carries the new value. *)
Theorem local_save_counter env filename w :
  let w' := (save_image_local env filename w).2 in
  (forall name, filename = Some name -> image_counter w' = image_counter w) /\
  (current_frame w = None -> image_counter w' = image_counter w) /\
  (forall f, filename = None -> current_frame w = Some f ->
     image_counter w' = (image_counter w + 1)%N /\
     imwrite_paths (trace w')
       = imwrite_paths (trace w)
         ++ [path_join local_save_dir
               (dataset_filename (image_counter w + 1)
                  (drop_last 3 (strftime_stamp (now env))))]).
Proof.
  cbv zeta. split; [|split].
  - intros name ->. rewrite save_image_local_eq.
    destruct (current_frame w); [|reflexivity].
    cbv zeta beta iota. destruct (imwrite_result env) as [e|[|]]; reflexivity.
  - intros Hnone. rewrite save_image_local_eq, Hnone. reflexivity.
  - intros f -> Hframe. apply (save_image_local_generated env w f Hframe).
Qed.

(** C9. Two local saves under the same explicit name, whatever frame is
    current at each: both write to the same path, which is the directory
    joined with the name; the counter is not touched; no file other than
    that one appears, and when both writes succeed it holds the frame of
    the second save. *)
Theorem local_save_same_name_twice env1 env2 name w f1 f2 :
  current_frame w = Some f1 ->
  let filepath := path_join local_save_dir name in
  let w1 := (save_image_local env1 (Some name) w).2 in
  let w2 := (save_image_local env2 (Some name) (set_current_frame (Some f2) w1)).2 in
  imwrite_paths (trace w2) = imwrite_paths (trace w) ++ [filepath; filepath] /\
  image_counter w2 = image_counter w /\
  dom (files w2) ⊆ {[filepath]} ∪ dom (files w) /\
  (local_succeeds env1 = true -> local_succeeds env2 = true ->
   files w1 = <[filepath := f1]> (files w) /\
   files w2 = <[filepath := f2]> (files w) /\
   dom (files w2) = dom (files w1)).
Proof.
  intros Hframe. cbv zeta. rewrite !save_image_local_eq, Hframe.
  cbv zeta beta iota. unfold local_succeeds.
  destruct (imwrite_result env1) as [e1|[|]];
    cbn [snd current_frame set_current_frame log write_file];
    destruct (imwrite_result env2) as [e2|[|]];
    cbn [snd trace files image_counter set_current_frame log write_file];
    rewrite ?imwrite_paths_app; cbn [imwrite_paths];
    rewrite ?app_nil_r, <- ?app_assoc;
    (split; [reflexivity|]); (split; [reflexivity|]);
    (split; [rewrite ?insert_insert_eq, ?dom_insert_L;
             first [reflexivity|apply union_subseteq_r]|]);
    intros Hok1 Hok2; try discriminate.
  rewrite insert_insert_eq, !dom_insert_L. auto.
Qed.

Lemma path_join_dataset_filename (counter : N) (timestamp : string) :
  path_join local_save_dir (dataset_filename counter timestamp)
  = "ball_dataset_local/ball_dataset_" +:+ format_0d 4 counter +:+ "_"
    +:+ timestamp +:+ ".jpg".
Proof. reflexivity. Qed.

(** C8 (as amended). A local save without a name writes to
    [ball_dataset_local/ball_dataset_<seq>_<YYYYMMDD_HHMMSS_mmm>.jpg]: [seq]
    is the incremented counter padded with zeros to four digits, and is
    longer from 10000 on; the time has millisecond precision, the last
    three digits of the microseconds being dropped. *)
Theorem generated_filename_format env w f :
  current_frame w = Some f ->
  valid_datetime (now env) ->
  let c := (image_counter w + 1)%N in
  let t := now env in
  let w' := (save_image_local env None w).2 in
  let seq := format_0d 4 c in
  imwrite_paths (trace w')
    = imwrite_paths (trace w)
      ++ ["ball_dataset_local/ball_dataset_" +:+ seq +:+ "_" +:+
          fixed_dec 4 (year t) +:+ fixed_dec 2 (month t) +:+ fixed_dec 2 (day t) +:+ "_" +:+
          fixed_dec 2 (hour t) +:+ fixed_dec 2 (minute t) +:+ fixed_dec 2 (second t) +:+ "_" +:+
          fixed_dec 3 (microsecond t / 1000)%N +:+ ".jpg"] /\
  ((c <= 9999)%N -> seq = fixed_dec 4 c) /\
  ((10000 <= c)%N -> seq = str_of_N c /\ 4 < String.length seq).
Proof.
  intros Hframe Hvalid c t w' seq. split; [|split].
  - destruct (save_image_local_generated env w f Hframe) as [_ Hpaths].
    subst w'. rewrite Hpaths, path_join_dataset_filename, timestamp_fixed by exact Hvalid.
    rewrite !str_app_assoc. reflexivity.
  - intros Hsmall. apply format_0d_fixed; [lia|].
    change (10 ^ N.of_nat 4)%N with 10000%N. lia.
  - intros Hlarge. apply format_0d_long.
    change (10 ^ N.of_nat 4)%N with 10000%N. lia.
Qed.

(** *** The counter *)

Lemma remote_succeeds_run srv filename w :
  remote_succeeds srv = true ->
  exists w',
    save_image_remote srv filename w = (Return true, w') /\
    running w' = running w /\ current_frame w' = current_frame w /\
    image_counter w' = image_counter w.
Proof.
  unfold remote_succeeds. intros Hok. rewrite save_image_remote_eq. cbv zeta.
  destruct (send_error srv); [discriminate|].
  destruct (reply srv) as [e|raw]; [discriminate|].
  destruct (decode_utf8 (firstn 1024 raw)) as [e|response]; [discriminate|].
  rewrite Hok. destruct (startswith_SAVED_split response Hok) as (path & _ & Hsplit).
  unfold split1_snd. rewrite Hsplit. eexists. repeat split.
Qed.

Lemma local_succeeds_run env filename w f :
  current_frame w = Some f ->
  local_succeeds env = true ->
  exists w',
    save_image_local env filename w = (Return true, w') /\
    running w' = running w /\ current_frame w' = current_frame w /\
    image_counter w'
      = (if filename is None then image_counter w + 1 else image_counter w)%N.
Proof.
  unfold local_succeeds. intros Hframe Hok. rewrite save_image_local_eq, Hframe.
  destruct (imwrite_result env) as [e|[|]]; try discriminate.
  destruct filename; eexists; repeat split; assumption.
Qed.

Lemma show_frame_run w :
  exists w',
    show_frame w = (Return tt, w') /\
    running w' = running w /\ current_frame w' = current_frame w /\
    image_counter w' = image_counter w.
Proof.
  unfold show_frame. run_py. cbn [current_frame log].
  destruct (current_frame w) as [f|] eqn:Hframe; eexists;
    (split; [reflexivity|]); cbn [running current_frame image_counter log]; auto.
Qed.

(** Run a computation whose result is known. *)
Lemma bind_run {W A B} (m : M W A) (k : A -> M W B) w a w1 :
  m w = (Return a, w1) -> bind m k w = k a w1.
Proof. intros Hm. unfold bind. rewrite Hm. reflexivity. Qed.

Ltac key_tests Hkey :=
  cbv zeta; rewrite Hkey;
  cbv beta iota delta [Z.eqb Pos.eqb orb].

(** 's' or SPACE with a successful remote save: one more. *)
Lemma handle_key_remote t w :
  remote_save_tick t = true ->
  exists w',
    handle_key t w = (Return Continue, w') /\
    running w' = running w /\ current_frame w' = current_frame w /\
    image_counter w' = (image_counter w + 1)%N.
Proof.
  unfold remote_save_tick, key_of. intros [Hkey Hok]%andb_prop.
  destruct (remote_succeeds_run (server t) None w Hok) as (w1 & Hrun & Hr & Hf & Hc).
  unfold handle_key.
  apply orb_prop in Hkey as [Hkey%Z.eqb_eq|Hkey%Z.eqb_eq]; key_tests Hkey;
    rewrite (bind_run _ _ _ _ _ Hrun); run_py;
    eexists; (split; [reflexivity|]);
    cbn [running current_frame image_counter set_image_counter];
    rewrite Hr, Hf, Hc; auto.
Qed.

(** 'l' with a frame and a successful write: one more. *)
Lemma handle_key_local t w f :
  (key_of t =? 108)%Z = true ->
  local_succeeds (machine t) = true ->
  current_frame w = Some f ->
  exists w',
    handle_key t w = (Return Continue, w') /\
    running w' = running w /\ current_frame w' = current_frame w /\
    image_counter w' = (image_counter w + 1)%N.
Proof.
  unfold key_of. intros Hkey%Z.eqb_eq Hok Hframe.
  destruct (local_succeeds_run (machine t) None w f Hframe Hok)
    as (w1 & Hrun & Hr & Hf & Hc).
  unfold handle_key. key_tests Hkey.
  rewrite (bind_run _ _ _ _ _ Hrun). run_py.
  eexists. split; [reflexivity|].
  cbn [running current_frame image_counter log]. rewrite Hr, Hf, Hc. auto.
Qed.

(** 'b' with a frame and both saves successful: two more, one for the
    name and one for the success. *)
Lemma handle_key_both t w f :
  (key_of t =? 98)%Z = true ->
  remote_succeeds (server t) = true ->
  local_succeeds (machine t) = true ->
  current_frame w = Some f ->
  exists w',
    handle_key t w = (Return Continue, w') /\
    running w' = running w /\ current_frame w' = current_frame w /\
    image_counter w' = (image_counter w + 2)%N.
Proof.
  unfold key_of. intros Hkey%Z.eqb_eq Hremote Hlocal Hframe.
  unfold handle_key. key_tests Hkey. run_py.
  cbn [image_counter log set_image_counter].
  set (filename := dataset_filename _ _).
  set (w0 := log EvNow _).
  destruct (remote_succeeds_run (server t) (Some filename) w0 Hremote)
    as (w1 & Hrun1 & Hr1 & Hf1 & Hc1).
  rewrite Hrun1.
  destruct (local_succeeds_run (machine t) (Some filename) w1 f) as (w2 & Hrun2 & Hr2 & Hf2 & Hc2);
    [rewrite Hf1; exact Hframe|exact Hlocal|].
  rewrite Hrun2. cbn [orb].
  eexists. split; [reflexivity|].
  cbn [running current_frame image_counter set_image_counter].
  rewrite Hr2, Hf2, Hc2, Hr1, Hf1, Hc1. subst w0.
  cbn [running current_frame image_counter set_image_counter log].
  repeat split. lia.
Qed.

(** An iteration: what the receiver stored, the display, the key. *)
Lemma iteration_run t w :
  let w0 := match published t with
            | Some frame => set_current_frame frame w
            | None => w
            end in
  exists w1,
    iteration t w = handle_key t w1 /\
    running w1 = running w /\ current_frame w1 = current_frame w0 /\
    image_counter w1 = image_counter w.
Proof.
  cbv zeta. unfold iteration, receiver_publishes.
  destruct (published t) as [frame|].
  - destruct (show_frame_run (set_current_frame frame w)) as (w1 & Hshow & Hr & Hf & Hc).
    exists w1. unfold bind at 1. unfold modify.
    rewrite (bind_run _ _ _ _ _ Hshow). auto.
  - destruct (show_frame_run w) as (w1 & Hshow & Hr & Hf & Hc).
    exists w1. unfold bind at 1. unfold ret.
    rewrite (bind_run _ _ _ _ _ Hshow). auto.
Qed.

Lemma keeps_frame_some t w :
  keeps_frame t = true ->
  is_Some (current_frame w) ->
  is_Some (current_frame (match published t with
                          | Some frame => set_current_frame frame w
                          | None => w
                          end)).
Proof.
  unfold keeps_frame. destruct (published t) as [[frame|]|]; intros Hk Hs;
    try discriminate; [cbn; eauto|exact Hs].
Qed.

Lemma run_remote_ticks ticks :
  forall w,
    running w = true ->
    forallb remote_save_tick ticks = true ->
    exists w',
      run_ticks ticks w = Some w' /\
      image_counter w' = (image_counter w + N.of_nat (length ticks))%N.
Proof.
  induction ticks as [|t ticks IH]; intros w Hrun Hall.
  - exists w. split; [reflexivity|]. cbn. lia.
  - cbn [forallb] in Hall. apply andb_prop in Hall as [Ht Hall].
    destruct (iteration_run t w) as (w1 & Hiter & Hr1 & _ & Hc1).
    destruct (handle_key_remote t w1 Ht) as (w2 & Hkey & Hr2 & _ & Hc2).
    destruct (IH w2) as (w' & Hrest & Hc'); [congruence|exact Hall|].
    exists w'. cbn [run_ticks]. rewrite Hrun, Hiter, Hkey. split; [exact Hrest|].
    rewrite Hc', Hc2, Hc1. cbn [length]. lia.
Qed.

Lemma run_local_ticks ticks :
  forall w,
    running w = true ->
    is_Some (current_frame w) ->
    forallb local_save_tick ticks = true ->
    exists w',
      run_ticks ticks w = Some w' /\
      image_counter w' = (image_counter w + N.of_nat (length ticks))%N.
Proof.
  induction ticks as [|t ticks IH]; intros w Hrun Hframe Hall.
  - exists w. split; [reflexivity|]. cbn. lia.
  - cbn [forallb] in Hall. apply andb_prop in Hall as [Ht Hall].
    unfold local_save_tick in Ht.
    apply andb_prop in Ht as [[Hkey Hkeeps]%andb_prop Hok].
    destruct (iteration_run t w) as (w1 & Hiter & Hr1 & Hf1 & Hc1).
    pose proof (keeps_frame_some t w Hkeeps Hframe) as [f Hf]. rewrite <- Hf1 in Hf.
    destruct (handle_key_local t w1 f Hkey Hok Hf) as (w2 & Hk & Hr2 & Hf2 & Hc2).
    destruct (IH w2) as (w' & Hrest & Hc'); [congruence|rewrite Hf2; eauto|exact Hall|].
    exists w'. cbn [run_ticks]. rewrite Hrun, Hiter, Hk. split; [exact Hrest|].
    rewrite Hc', Hc2, Hc1. cbn [length]. lia.
Qed.

Lemma run_both_ticks ticks :
  forall w,
    running w = true ->
    is_Some (current_frame w) ->
    forallb both_save_tick ticks = true ->
    exists w',
      run_ticks ticks w = Some w' /\
      image_counter w' = (image_counter w + 2 * N.of_nat (length ticks))%N.
Proof.
  induction ticks as [|t ticks IH]; intros w Hrun Hframe Hall.
  - exists w. split; [reflexivity|]. cbn. lia.
  - cbn [forallb] in Hall. apply andb_prop in Hall as [Ht Hall].
    unfold both_save_tick in Ht.
    apply andb_prop in Ht as [[[Hkey Hkeeps]%andb_prop Hremote]%andb_prop Hlocal].
    destruct (iteration_run t w) as (w1 & Hiter & Hr1 & Hf1 & Hc1).
    pose proof (keeps_frame_some t w Hkeeps Hframe) as [f Hf]. rewrite <- Hf1 in Hf.
    destruct (handle_key_both t w1 f Hkey Hremote Hlocal Hf) as (w2 & Hk & Hr2 & Hf2 & Hc2).
    destruct (IH w2) as (w' & Hrest & Hc'); [congruence|rewrite Hf2; eauto|exact Hall|].
    exists w'. cbn [run_ticks]. rewrite Hrun, Hiter, Hk. split; [exact Hrest|].
    rewrite Hc', Hc2, Hc1. cbn [length]. lia.
Qed.

(** The iterations of [run_ticks] are those of the display loop. *)
Lemma display_loop_run_ticks ticks :
  forall w w' rest,
    run_ticks ticks w = Some w' ->
    display_loop (ticks ++ rest) w = display_loop rest w'.
Proof.
  induction ticks as [|t ticks IH]; intros w w' rest; cbn [run_ticks app].
  - intros [= ->]. reflexivity.
  - destruct (running w) eqn:Hrun; [|discriminate].
    destruct (iteration t w) as [[[|]| |] w1] eqn:Hiter; try discriminate.
    intros Hrest. cbn [display_loop]. unfold bind at 1. unfold get. rewrite Hrun.
    unfold bind at 1. rewrite Hiter. apply IH, Hrest.
Qed.

(** C1 (as amended). From counter 0: after N iterations with a successful
    remote save the counter is N; after N iterations with a successful
    local save without name it is N as well, the save itself counting when
    it makes up the name. *)
Theorem save_counter_arithmetic (ticks : list tick) (w : World) :
  running w = true ->
  image_counter w = 0%N ->
  (forallb remote_save_tick ticks = true ->
   exists w', run_ticks ticks w = Some w' /\
     image_counter w' = N.of_nat (length ticks)) /\
  (is_Some (current_frame w) -> forallb local_save_tick ticks = true ->
   exists w', run_ticks ticks w = Some w' /\
     image_counter w' = N.of_nat (length ticks)).
Proof.
  intros Hrun Hzero. split.
  - intros Hall. destruct (run_remote_ticks ticks w Hrun Hall) as (w' & Hrest & Hc).
    exists w'. split; [exact Hrest|]. lia.
  - intros Hframe Hall.
    destruct (run_local_ticks ticks w Hrun Hframe Hall) as (w' & Hrest & Hc).
    exists w'. split; [exact Hrest|]. lia.
Qed.

End ClientFacts.

(** ** CameraClient: the receiver *)

Section ReceiverFacts.
Import PyStr Py Wire Client.
Local Open Scope py_scope.
Context `{Externals}.

Lemma recv_frame_eq w :
  recv_frame w
  = ((recv_frame_data (stream_socket w)).1,
     set_stream_socket (recv_frame_data (stream_socket w)).2 w).
Proof. unfold recv_frame. destruct (recv_frame_data _). reflexivity. Qed.

Lemma receive_one_eq : receive_one = (frame_data <- recv_frame;; decode_and_publish frame_data).
Proof. reflexivity. Qed.

(** Decoding and publishing returns or raises, and touches the slot and the
    trace only. *)
Lemma decode_and_publish_run frame_data w :
  exists r w',
    decode_and_publish frame_data w = (r, w') /\ r <> Unfinished /\
    running w' = running w /\ image_counter w' = image_counter w /\
    stream_socket w' = stream_socket w.
Proof.
  unfold decode_and_publish, with_frame_lock, call, emit, bind, modify, try_finally,
    of_result.
  destruct (pickle_loads frame_data) as [e|frame_encoded];
    [do 2 eexists; split; [reflexivity|]; repeat split; discriminate|].
  destruct (imdecode frame_encoded) as [e|frame];
    do 2 eexists; (split; [reflexivity|]); repeat split; discriminate.
Qed.

(** The loop of [receive_frames] ends, by an exception or because the flag
    is down, within the iterations the pending bytes allow; it leaves the
    flag and the counter as they are. *)
Lemma receive_loop_ends :
  forall fuel w,
    length (pending (stream_socket w)) < fuel ->
    exists r w',
      receive_loop fuel w = (r, w') /\ r <> Unfinished /\
      running w' = running w /\ image_counter w' = image_counter w.
Proof.
  induction fuel as [|fuel IH]; intros w Hfuel; [lia|].
  cbn [receive_loop]. unfold bind at 1. unfold get.
  destruct (running w) eqn:Hrun.
  - rewrite receive_one_eq. unfold bind at 1 2. rewrite recv_frame_eq.
    pose proof (recv_frame_data_finishes (stream_socket w)) as Hfin.
    pose proof (recv_frame_data_progress (stream_socket w)) as Hprog.
    destruct (recv_frame_data (stream_socket w)) as [[frame_data|e|] sock'];
      cbn [fst snd] in *; [| |congruence].
    + specialize (Hprog frame_data sock' eq_refl).
      destruct (decode_and_publish_run frame_data (set_stream_socket sock' w))
        as (r & w1 & -> & Hr & Hrun1 & Hc1 & Hs1).
      cbn [running image_counter set_stream_socket] in Hrun1, Hc1.
      destruct r as [[]|e|]; [| |congruence].
      * destruct (IH w1) as (r' & w' & -> & Hr' & Hrun' & Hc').
        { rewrite Hs1. cbn [stream_socket set_stream_socket]. lia. }
        exists r', w'. repeat split; try assumption; congruence.
      * do 2 eexists. split; [reflexivity|]. repeat split; try discriminate; congruence.
    + do 2 eexists. split; [reflexivity|].
      repeat split; try discriminate; cbn [running image_counter set_stream_socket];
        congruence.
  - do 2 eexists. split; [reflexivity|]. repeat split; try discriminate; congruence.
Qed.

Lemma receive_frames_returns w :
  exists w', receive_frames w = (Return tt, w') /\ running w' = running w.
Proof.
  unfold receive_frames, try_except.
  destruct (receive_loop_ends (S (length (pending (stream_socket w)))) w)
    as (r & w1 & -> & Hr & Hrun & _); [lia|].
  destruct r as [[]|e|]; [eauto| |congruence].
  unfold bind, get, print, emit, modify, ret.
  destruct (running w1) eqn:Hrun1; eexists; (split; [reflexivity|]);
    cbn [running log]; congruence.
Qed.

(** C2. A frame whose prefix announces [frame_size] bytes and that is there
    in full, however the transport cuts the stream into segments: the
    receiver takes the four bytes of the prefix, then the [frame_size] bytes
    of the payload, [4 + frame_size] in all and none of what follows, and
    only then unpickles and decodes, the payload exactly. *)
Theorem receiver_consumes_frame_exactly w (prefix payload rest : bytes) frame_size :
  pending (stream_socket w) = prefix ++ payload ++ rest ->
  unpack_L prefix = Return frame_size ->
  length payload = N.to_nat frame_size ->
  exists sock1 sock2,
    recv_exactly (fun missing => missing) 4 (stream_socket w) = (Return prefix, sock1) /\
    pending sock1 = payload ++ rest /\
    recv_exactly (fun missing => Nat.min 4096 missing) (N.to_nat frame_size) sock1
      = (Return payload, sock2) /\
    pending sock2 = rest /\
    length (pending (stream_socket w)) = 4 + N.to_nat frame_size + length (pending sock2) /\
    receive_one w = decode_and_publish payload (set_stream_socket sock2 w).
Proof.
  intros Hpend Hunpack Hlen.
  destruct (recv_frame_data_complete _ _ _ _ _ Hpend Hunpack Hlen)
    as (sock1 & sock2 & Hrun1 & Hrest1 & Hrun2 & Hrest2 & Hrun).
  exists sock1, sock2. repeat split; try assumption.
  - rewrite Hpend, Hrest2, !length_app, (unpack_L_length _ _ Hunpack). lia.
  - rewrite receive_one_eq. apply bind_run. rewrite recv_frame_eq, Hrun. reflexivity.
Qed.

(** C3. [receive_frames] always returns, with the flag as it was.  When the
    stream ends inside a frame, reading it raises [ConnectionError]; this
    ends the loop at whichever iteration it happens; and the method prints
    the error (if the flag is up) and returns, and neither the flag nor the
    slot has changed. *)
Theorem receiver_connection_lost w :
  (exists w', receive_frames w = (Return tt, w') /\ running w' = running w) /\
  (incomplete (pending (stream_socket w)) = true ->
   (exists w1, recv_frame w = (Raise (ConnectionError "Connection lost"), w1)) /\
   (forall fuel, running w = true ->
      exists w1,
        receive_loop (S fuel) w = (Raise (ConnectionError "Connection lost"), w1) /\
        running w1 = true /\ current_frame w1 = current_frame w) /\
   exists w',
     receive_frames w = (Return tt, w') /\
     running w' = running w /\
     current_frame w' = current_frame w /\
     trace w' = trace w ++ (if running w
                            then [EvPrint "Frame receiving error: Connection lost"]
                            else [])).
Proof.
  split; [apply receive_frames_returns|].
  intros Hinc.
  destruct (recv_frame_data_incomplete _ Hinc) as (sock' & Hraise & _).
  assert (recv_frame w
          = (Raise (ConnectionError "Connection lost"), set_stream_socket sock' w))
    as Hframe by (rewrite recv_frame_eq, Hraise; reflexivity).
  split; [eauto|]. split.
  { intros fuel Hrun. cbn [receive_loop]. unfold bind at 1. unfold get. rewrite Hrun.
    rewrite receive_one_eq. unfold bind at 1 2. rewrite Hframe.
    eexists. split; [reflexivity|]. split; [exact Hrun|reflexivity]. }
  unfold receive_frames, try_except. cbn [receive_loop].
  unfold bind at 1. unfold get.
  destruct (running w) eqn:Hrun.
  - rewrite receive_one_eq. unfold bind at 1 2. rewrite Hframe.
    unfold bind, get, print, emit, modify.
    cbn [running set_stream_socket]. rewrite Hrun.
    eexists. split; [reflexivity|]. cbn [running current_frame trace log set_stream_socket].
    auto.
  - unfold ret. eexists. split; [reflexivity|]. rewrite app_nil_r. auto.
Qed.

End ReceiverFacts.

(** ** The two threads and the slot *)

Section ThreadFacts.
Import PyStr Py Wire Client Threads.
Context `{Externals}.

Lemma invariant_initial sock : invariant (initial sock).
Proof.
  split; cbn; try reflexivity; try discriminate.
  - intros [|]; discriminate.
  - split; discriminate.
Qed.

Lemma decoded_at_alloc s f l :
  decoded_at s l -> decoded_at (alloc f s) l.
Proof.
  intros (Hlt & f' & Hl & Hdec). split; [cbn; lia|].
  exists f'. split; [|exact Hdec]. cbn. rewrite lookup_insert_ne by lia. exact Hl.
Qed.

Lemma decoded_at_new s f :
  fully_decoded f -> decoded_at (alloc f s) (next s).
Proof.
  intros Hdec. split; [cbn; lia|]. exists f. split; [|exact Hdec].
  cbn. apply lookup_insert_eq.
Qed.

Lemma decoded_at_mutate s d g l :
  l <> d -> decoded_at s l -> decoded_at (mutate d g s) l.
Proof.
  intros Hne (Hlt & f' & Hl & Hdec). split; [exact Hlt|].
  exists f'. split; [|exact Hdec]. cbn. rewrite lookup_alter_ne by congruence. exact Hl.
Qed.

Ltac inv_fields :=
  cbn [lock slot heap next pc_r pc_m flag stream goto_r goto_m set_lock set_slot
       set_flag set_stream holds_lock_r holds_lock_m pending_r private_m] in *.

(** Moves that change neither the store, the slot nor the lock. *)
Lemma invariant_goto_r s p :
  invariant s ->
  holds_lock_r p = holds_lock_r (pc_r s) ->
  pending_r p = pending_r (pc_r s) ->
  invariant (goto_r p s).
Proof.
  intros [Hlock Hexcl Hslot Hpend Hpriv Hcopy Hraise] Hholds Hpending.
  split; inv_fields; rewrite ?Hholds, ?Hpending; assumption.
Qed.

Lemma invariant_goto_m s p :
  invariant s ->
  holds_lock_m p = holds_lock_m (pc_m s) ->
  private_m p = private_m (pc_m s) \/ private_m p = None ->
  (p = MCopy \/ p = LCopy -> slot s <> None) ->
  p <> MRaise -> p <> LRaise ->
  invariant (goto_m p s).
Proof.
  intros [Hlock Hexcl Hslot Hpend Hpriv Hcopy Hraise] Hholds Hprivate Hc Hr1 Hr2.
  split; inv_fields; rewrite ?Hholds; auto.
  destruct Hprivate as [->| ->]; [exact Hpriv|discriminate].
Qed.

(** Taking and giving back the lock. *)
Lemma invariant_acquire_m s p :
  invariant s ->
  lock s = None ->
  holds_lock_m (pc_m s) = false ->
  holds_lock_m p = true ->
  private_m p = None ->
  p <> MCopy -> p <> LCopy -> p <> MRaise -> p <> LRaise ->
  invariant (goto_m p (set_lock (Some Main) s)).
Proof.
  intros [Hlock Hexcl Hslot Hpend Hpriv Hcopy Hraise] Hfree Hm Hp Hprivate ? ? ? ?.
  rewrite Hfree, Hm in Hlock.
  destruct (holds_lock_r (pc_r s)) eqn:Hr; [discriminate|].
  split; inv_fields; rewrite ?Hr, ?Hp, ?Hprivate; try assumption; try reflexivity.
  - discriminate.
  - intros [?|?]; congruence.
  - auto.
Qed.

Lemma invariant_release_m s p :
  invariant s ->
  holds_lock_m (pc_m s) = true ->
  holds_lock_m p = false ->
  private_m p = private_m (pc_m s) \/ private_m p = None ->
  p <> MCopy -> p <> LCopy -> p <> MRaise -> p <> LRaise ->
  invariant (goto_m p (set_lock None s)).
Proof.
  intros [Hlock Hexcl Hslot Hpend Hpriv Hcopy Hraise] Hm Hp Hprivate ? ? ? ?.
  rewrite Hm in Hexcl, Hlock.
  destruct (holds_lock_r (pc_r s)) eqn:Hr; [discriminate|].
  split; inv_fields; rewrite ?Hr, ?Hp; try assumption; try reflexivity.
  - destruct Hprivate as [->| ->]; [exact Hpriv|discriminate].
  - intros [?|?]; congruence.
  - auto.
Qed.

(** The copy of the slot's frame, taken by the main thread under the
    lock: a new array that only the main thread refers to. *)
Lemma invariant_copy_slot s p :
  invariant s ->
  pc_m s = MCopy \/ pc_m s = LCopy ->
  (forall d, holds_lock_m (p d) = true /\ private_m (p d) = Some d /\
             p d <> MCopy /\ p d <> LCopy /\ p d <> MRaise /\ p d <> LRaise) ->
  exists d s1, copy_slot s = Some (d, s1) /\ invariant (goto_m (p d) s1).
Proof.
  intros [Hlock Hexcl Hslot Hpend Hpriv Hcopy Hraise] Hpc Hp.
  unfold copy_slot. destruct (slot s) as [l|] eqn:Hl; [|destruct (Hcopy Hpc eq_refl)].
  destruct (Hslot l eq_refl) as (Hlt & f & Hf & Hdec). rewrite Hf.
  exists (next s), (alloc (copy f) s). split; [reflexivity|].
  destruct (Hp (next s)) as (Hholds & Hprivate & ? & ? & ? & ?).
  assert (holds_lock_m (pc_m s) = true) as Hm by (destruct Hpc as [->| ->]; reflexivity).
  rewrite Hm in Hexcl, Hlock.
  destruct (holds_lock_r (pc_r s)) eqn:Hr; [discriminate|].
  split; cbn [lock slot heap next pc_r pc_m goto_m alloc];
    rewrite ?Hr, ?Hholds, ?Hprivate; try assumption; try reflexivity.
  - intros l' Hl'. rewrite Hl in Hl'. apply decoded_at_alloc, Hslot, Hl'.
  - intros l' Hl'. apply decoded_at_alloc, Hpend, Hl'.
  - intros d [= Hd]. rewrite <- Hd. split; [lia|]. split.
    + rewrite Hl. intros [= Heq]. lia.
    + intros Hp'. destruct (Hpend _ Hp') as [Hlt' _]. lia.
  - intros [?|?]; congruence.
  - auto.
Qed.

(** Drawing on the main thread's copy. *)
Lemma invariant_mutate s d g p :
  invariant s ->
  private_m (pc_m s) = Some d ->
  holds_lock_m p = holds_lock_m (pc_m s) ->
  private_m p = Some d ->
  p <> MCopy -> p <> LCopy -> p <> MRaise -> p <> LRaise ->
  invariant (goto_m p (mutate d g s)).
Proof.
  intros [Hlock Hexcl Hslot Hpend Hpriv Hcopy Hraise] Hd Hholds Hprivate ? ? ? ?.
  destruct (Hpriv d Hd) as (Hlt & Hns & Hnp).
  split; cbn [lock slot heap next pc_r pc_m goto_m mutate];
    rewrite ?Hholds, ?Hprivate; try assumption.
  - intros l Hl. apply decoded_at_mutate; [congruence|]. apply Hslot, Hl.
  - intros l Hl. apply decoded_at_mutate; [congruence|]. apply Hpend, Hl.
  - intros d' [= <-]. auto.
  - intros [?|?]; congruence.
  - auto.
Qed.

Lemma invariant_set_stream s sock : invariant s -> invariant (set_stream sock s).
Proof. intros [Hlock Hexcl Hslot Hpend Hpriv Hcopy Hraise]. split; assumption. Qed.

Lemma invariant_set_flag s b : invariant s -> invariant (set_flag b s).
Proof. intros [Hlock Hexcl Hslot Hpend Hpriv Hcopy Hraise]. split; assumption. Qed.

Lemma step_receiver_invariant s s' :
  invariant s -> step_receiver s = Some s' -> invariant s'.
Proof.
  intros Hinv. unfold step_receiver.
  destruct (pc_r s) as [| |frame|frame| |e|] eqn:Hpc.
  - (* RWhile *)
    intros [= <-]. apply invariant_goto_r; [exact Hinv|..]; rewrite Hpc;
      destruct (flag s); reflexivity.
  - (* RRecv *)
    destruct (recv_frame_data (stream s)) as [[frame_data|e|] sock'] eqn:Hrecv;
      [| |discriminate].
    + destruct (pickle_loads frame_data) as [e|frame_encoded] eqn:Hpickle.
      { intros [= <-]. apply invariant_goto_r;
          [apply invariant_set_stream, Hinv|..]; cbn; rewrite Hpc; reflexivity. }
      destruct (imdecode frame_encoded) as [e|[frame|]] eqn:Hdecode.
      * intros [= <-]. apply invariant_goto_r;
          [apply invariant_set_stream, Hinv|..]; cbn; rewrite Hpc; reflexivity.
      * intros [= <-].
        assert (fully_decoded frame) as Hfull
          by (exists (stream s), sock', frame_data, frame_encoded; auto).
        destruct Hinv as [Hlock Hexcl Hslot Hpend Hpriv Hcopy Hraise].
        rewrite Hpc in *.
        split; cbn [lock slot heap next pc_r pc_m flag stream goto_r set_stream alloc
                    holds_lock_r pending_r] in *.
        -- exact Hlock.
        -- exact Hexcl.
        -- intros l Hl. apply (decoded_at_alloc (set_stream sock' s)), Hslot, Hl.
        -- intros l [= Hl]. rewrite <- Hl.
           apply (decoded_at_new (set_stream sock' s)), Hfull.
        -- intros d Hd. destruct (Hpriv d Hd) as (Hlt & Hne & _).
           repeat split; [lia|exact Hne|]. intros [= Heq]. lia.
        -- exact Hcopy.
        -- exact Hraise.
      * intros [= <-]. apply invariant_goto_r;
          [apply invariant_set_stream, Hinv|..]; cbn; rewrite Hpc; reflexivity.
    + intros [= <-]. apply invariant_goto_r;
        [apply invariant_set_stream, Hinv|..]; cbn; rewrite Hpc; reflexivity.
  - (* RAcquire *)
    destruct (lock s) eqn:Hfree; [discriminate|]. intros [= <-].
    destruct Hinv as [Hlock Hexcl Hslot Hpend Hpriv Hcopy Hraise].
    rewrite Hpc in *. inv_fields. rewrite Hfree in Hlock.
    destruct (holds_lock_m (pc_m s)) eqn:Hm; [discriminate|].
    split; inv_fields; rewrite ?Hm; try assumption; reflexivity.
  - (* RStore *)
    intros [= <-].
    destruct Hinv as [Hlock Hexcl Hslot Hpend Hpriv Hcopy Hraise].
    rewrite Hpc in *. inv_fields.
    destruct (holds_lock_m (pc_m s)) eqn:Hm; [discriminate|].
    split; inv_fields; rewrite ?Hm; try assumption; try reflexivity.
    + intros l ->. apply Hpend. reflexivity.
    + discriminate.
    + intros d Hd. destruct (Hpriv d Hd) as (Hlt & _ & Hne).
      repeat split; [exact Hlt| |discriminate].
      destruct frame as [l|]; [|discriminate]. exact Hne.
    + intros [Hc|Hc]; rewrite Hc in Hm; discriminate.
  - (* RRelease *)
    intros [= <-].
    destruct Hinv as [Hlock Hexcl Hslot Hpend Hpriv Hcopy Hraise].
    rewrite Hpc in *. inv_fields.
    destruct (holds_lock_m (pc_m s)) eqn:Hm; [discriminate|].
    split; inv_fields; rewrite ?Hm; try assumption; reflexivity.
  - (* RExcept *)
    intros [= <-]. apply invariant_goto_r; [exact Hinv|..]; rewrite Hpc; reflexivity.
  - discriminate.
Qed.

Lemma step_main_invariant i s s' :
  invariant s -> step_main i s = Some s' -> invariant s'.
Proof.
  intros Hinv. unfold step_main.
  pose proof (inv_copy _ Hinv) as Hcopy.
  pose proof (inv_no_raise _ Hinv) as [Hnr1 Hnr2].
  destruct (pc_m s) as [| | | | |d|d|d| | | | | | |[d|]| |d| |] eqn:Hpc;
    try congruence.
  - (* MWait *)
    intros [= <-]. apply invariant_goto_m; [exact Hinv|..]; rewrite ?Hpc;
      destruct (_ && _); auto; try discriminate; intros [?|?]; discriminate.
  - (* MWhile *)
    intros [= <-]. apply invariant_goto_m; [exact Hinv|..]; rewrite ?Hpc;
      destruct (flag s); auto; try discriminate; intros [?|?]; discriminate.
  - (* MAcquire *)
    destruct (lock s) eqn:Hfree; [discriminate|]. intros [= <-].
    apply invariant_acquire_m; rewrite ?Hpc; auto; discriminate.
  - (* MCheck *)
    intros [= <-]. apply invariant_goto_m; [exact Hinv|..]; rewrite ?Hpc;
      case_bool_decide; auto; try discriminate; intros [?|?]; discriminate.
  - (* MCopy *)
    destruct (invariant_copy_slot s MPut1 Hinv) as (d & s1 & -> & Hinv1);
      [auto| |intros [= <-]; exact Hinv1].
    intros d. repeat split; discriminate.
  - (* MPut1 *)
    intros [= <-]. apply invariant_mutate; rewrite ?Hpc; auto; discriminate.
  - (* MPut2 *)
    intros [= <-]. apply invariant_mutate; rewrite ?Hpc; auto; discriminate.
  - (* MShow *)
    intros [= <-]. apply invariant_goto_m; [exact Hinv|..]; rewrite ?Hpc;
      auto; try discriminate; intros [?|?]; discriminate.
  - (* MRelease *)
    intros [= <-]. apply invariant_release_m; rewrite ?Hpc; auto; discriminate.
  - (* MKey *)
    cbv zeta.
    repeat match goal with |- context [if ?c then _ else _] => destruct c end;
      intros [= <-]; (apply invariant_goto_m; [exact Hinv|..]); rewrite ?Hpc;
      auto; try discriminate; intros [?|?]; discriminate.
  - (* LAcquire *)
    destruct (lock s) eqn:Hfree; [discriminate|]. intros [= <-].
    apply invariant_acquire_m; rewrite ?Hpc; auto; discriminate.
  - (* LCheck *)
    intros [= <-]. apply invariant_goto_m; [exact Hinv|..]; rewrite ?Hpc;
      case_bool_decide; auto; try discriminate; intros [?|?]; discriminate.
  - (* LCopy *)
    destruct (invariant_copy_slot s (fun d => LRelease (Some d)) Hinv)
      as (d & s1 & -> & Hinv1); [auto| |intros [= <-]; exact Hinv1].
    intros d. repeat split; discriminate.
  - (* LRelease (Some d) *)
    intros [= <-]. apply invariant_release_m; rewrite ?Hpc; auto; discriminate.
  - (* LRelease None *)
    intros [= <-]. apply invariant_release_m; rewrite ?Hpc; auto; discriminate.
  - (* LWrite *)
    intros [= <-]. apply invariant_goto_m; [exact Hinv|..]; rewrite ?Hpc;
      auto; try discriminate; intros [?|?]; discriminate.
  - (* MStop *)
    intros [= <-]. apply invariant_goto_m; [apply invariant_set_flag, Hinv|..];
      cbn; rewrite ?Hpc; auto; try discriminate; intros [?|?]; discriminate.
Qed.

Lemma run_invariant schedule :
  forall s, invariant s -> invariant (run schedule s).
Proof.
  induction schedule as [|[who i] schedule IH]; intros s Hinv; [exact Hinv|].
  cbn [run]. apply IH.
  destruct (step who i s) as [s'|] eqn:Hstep; [|exact Hinv].
  destruct who; cbn [step default] in *;
    eauto using step_receiver_invariant, step_main_invariant.
Qed.

Lemma invariant_slot_ok s : invariant s -> slot_ok s.
Proof.
  intros Hinv. unfold slot_ok. destruct (slot s) as [l|] eqn:Hl; [|auto].
  right. destruct (inv_slot _ Hinv l Hl) as (_ & f & Hf & Hdec). eauto.
Qed.

(** A new array does not change what the slot refers to. *)
Lemma slot_frame_alloc s f :
  invariant s -> slot_frame (alloc f s) = slot_frame s.
Proof.
  intros Hinv. unfold slot_frame. cbn [slot heap alloc].
  destruct (slot s) as [l|] eqn:Hl; [|reflexivity].
  destruct (inv_slot _ Hinv l Hl) as (Hlt & _).
  apply lookup_insert_ne. lia.
Qed.

(** Nor does drawing on the main thread's copy. *)
Lemma slot_frame_mutate s d g :
  invariant s -> private_m (pc_m s) = Some d ->
  slot_frame (mutate d g s) = slot_frame s.
Proof.
  intros Hinv Hd. unfold slot_frame. cbn [slot heap mutate].
  destruct (slot s) as [l|] eqn:Hl; [|reflexivity].
  destruct (inv_private _ Hinv d Hd) as (_ & Hne & _).
  apply lookup_alter_ne. congruence.
Qed.

(** The main thread never changes the frame a reader finds in the slot. *)
Lemma step_main_slot_frame i s s' :
  invariant s -> step_main i s = Some s' -> slot_frame s' = slot_frame s.
Proof.
  intros Hinv. unfold step_main, copy_slot.
  destruct (pc_m s) as [| | | | |d|d|d| | | | | | |[d|]| |d| |] eqn:Hpc;
    cbv zeta;
    repeat match goal with
      | |- context [match lock s with _ => _ end] => destruct (lock s)
      | |- context [match slot s with _ => _ end] => destruct (slot s) eqn:Hslot
      | |- context [match heap s !! ?l with _ => _ end] => destruct (heap s !! l) eqn:Hl
      | |- context [if ?c then _ else _] => destruct c
      end;
    intros [= <-]; try reflexivity;
    unfold slot_frame; cbn [slot heap goto_m alloc mutate];
    fold (slot_frame s); rewrite <- ?Hslot;
    try (change (slot_frame (alloc (copy f) s) = slot_frame s);
         apply slot_frame_alloc, Hinv);
    try (match goal with
         | |- context [alter ?g ?d _] =>
             change (slot_frame (mutate d g s) = slot_frame s)
         end; apply slot_frame_mutate; [exact Hinv|rewrite Hpc; reflexivity]).
Qed.

(** The receiver changes it at line 83 only, holding the lock. *)
Lemma step_receiver_slot_frame s s' :
  invariant s -> step_receiver s = Some s' ->
  slot_frame s' = slot_frame s \/
  (lock s = Some Receiver /\ pc_r s = RStore (slot s')).
Proof.
  intros Hinv. unfold step_receiver.
  destruct (pc_r s) as [| |frame|frame| |e|] eqn:Hpc.
  - intros [= <-]. left. reflexivity.
  - destruct (recv_frame_data (stream s)) as [[frame_data|e|] sock'];
      [| |discriminate].
    + destruct (pickle_loads frame_data) as [e|frame_encoded];
        [intros [= <-]; left; reflexivity|].
      destruct (imdecode frame_encoded) as [e|[frame|]];
        intros [= <-]; left; try reflexivity.
      apply (slot_frame_alloc (set_stream sock' s)), invariant_set_stream, Hinv.
    + intros [= <-]. left. reflexivity.
  - destruct (lock s); [discriminate|]. intros [= <-]. left. reflexivity.
  - intros [= <-]. right. split; [|reflexivity].
    rewrite (inv_lock _ Hinv), Hpc. reflexivity.
  - intros [= <-]. left. reflexivity.
  - intros [= <-]. left. reflexivity.
  - discriminate.
Qed.

(** C5. In every state that the receiver thread and the main thread reach
    by interleaving their steps, the slot is empty or refers to a frame
    decoded in full.  At most one thread is inside a with block.  The frame
    found in the slot changes in one kind of step only, the assignment of
    line 83, taken by the receiver while it holds the lock, and the state
    after it satisfies the same; so while the main thread holds the lock
    no step changes it, and copying the slot never fails.  Conversely,
    every publish replaces what the slot held: when the receiver is at
    line 83 it holds the lock, the main thread is outside its with blocks,
    the receiver can take the step, and after the step the slot is the
    frame just decoded, whatever it was before, with the lock still
    held. *)
Theorem slot_is_empty_or_decoded (sock : socket) (schedule : list (tid * input)) :
  let s := run schedule (initial sock) in
  slot_ok s /\
  holds_lock_r (pc_r s) && holds_lock_m (pc_m s) = false /\
  (forall who i s', step who i s = Some s' ->
     slot_ok s' /\
     (slot_frame s' = slot_frame s \/
      (who = Receiver /\ lock s = Some Receiver /\ pc_r s = RStore (slot s')))) /\
  (forall who i s', lock s = Some Main -> step who i s = Some s' ->
     slot_frame s' = slot_frame s) /\
  (forall i frame, pc_r s = RStore frame ->
     lock s = Some Receiver /\
     holds_lock_m (pc_m s) = false /\
     exists s',
       step Receiver i s = Some s' /\
       slot s' = frame /\
       heap s' = heap s /\
       lock s' = Some Receiver /\
       pc_r s' = RRelease /\
       match frame with
       | Some l => exists f, slot_frame s' = Some f /\ heap s !! l = Some f /\ fully_decoded f
       | None => slot_frame s' = None
       end) /\
  pc_m s <> MRaise /\ pc_m s <> LRaise.
Proof.
  intros s.
  assert (invariant s) as Hinv by apply run_invariant, invariant_initial.
  split; [apply invariant_slot_ok, Hinv|].
  split; [apply (inv_exclusive _ Hinv)|].
  split; [|split; [|split; [|apply (inv_no_raise _ Hinv)]]].
  - intros [|] i s' Hstep; cbn [step] in Hstep.
    + split; [eapply invariant_slot_ok, step_receiver_invariant; eassumption|].
      destruct (step_receiver_slot_frame s s' Hinv Hstep) as [?|[? ?]]; auto.
    + split; [eapply invariant_slot_ok, step_main_invariant; eassumption|].
      left. eapply step_main_slot_frame; eassumption.
  - intros [|] i s' Hmain Hstep; cbn [step] in Hstep.
    + destruct (step_receiver_slot_frame s s' Hinv Hstep) as [?|[? ?]]; congruence.
    + eapply step_main_slot_frame; eassumption.
  - intros i frame Hpc.
    pose proof (inv_lock _ Hinv) as Hlock.
    pose proof (inv_exclusive _ Hinv) as Hexcl.
    pose proof (inv_pending _ Hinv) as Hpending.
    rewrite Hpc in Hlock, Hexcl, Hpending. cbn [holds_lock_r andb] in Hlock, Hexcl.
    split; [exact Hlock|]. split; [exact Hexcl|].
    exists (goto_r RRelease (set_slot frame s)).
    split; [cbn [step]; unfold step_receiver; rewrite Hpc; reflexivity|].
    split; [reflexivity|]. split; [reflexivity|]. split; [exact Hlock|].
    split; [reflexivity|].
    destruct frame as [l|]; [|reflexivity].
    destruct (Hpending l eq_refl) as (_ & f & Hf & Hdecoded).
    exists f. split; [exact Hf|]. split; [exact Hf|exact Hdecoded].
Qed.

End ThreadFacts.

(** ** The receiver on a stream of frames *)

Section FramingFacts.
Import PyStr Py Wire Client Framing.
Local Open Scope py_scope.
Context `{Externals}.

(** A loop that returns has read exactly what was missing. *)
Lemma recv_loop_exact bufsize (Hfit : fits bufsize) target :
  forall fuel data sock result sock',
    length data <= target ->
    recv_loop fuel bufsize target data sock = (Return result, sock') ->
    length result = target /\
    exists got, result = data ++ got /\ pending sock = got ++ pending sock'.
Proof.
  induction fuel as [|fuel IH]; intros data sock result sock' Hle; cbn [recv_loop];
    destruct (Nat.ltb_spec (length data) target) as [Hlt|Hge]; intros Hrun;
    try discriminate.
  - injection Hrun as <- <-. split; [lia|]. exists []. rewrite app_nil_r. auto.
  - pose proof (recv_pending (bufsize (target - length data)) sock) as Hsplit.
    pose proof (recv_length (bufsize (target - length data)) sock) as Hlen.
    assert (0 < bufsize (target - length data) <= target - length data) as Hwant
      by (apply Hfit; lia).
    destruct (recv _ sock) as [chunk sock1]. cbn [fst snd] in Hsplit, Hlen.
    destruct chunk as [|b chunk]; [discriminate|].
    assert (length (data ++ b :: chunk) <= target) as Hle'
      by (rewrite length_app; lia).
    destruct (IH _ _ _ _ Hle' Hrun) as (Hexact & got & -> & Hpend).
    split; [exact Hexact|].
    exists ((b :: chunk) ++ got). rewrite Hsplit, Hpend, !app_assoc. auto.
  - injection Hrun as <- <-. split; [lia|]. exists []. rewrite app_nil_r. auto.
Qed.

Lemma unpack_L_bound data frame_size :
  unpack_L data = Return frame_size -> (frame_size < 2 ^ 32)%N.
Proof.
  destruct data as [|b0 [|b1 [|b2 [|b3 [|b4 data]]]]]; cbn; intros Hu;
    try discriminate.
  injection Hu as <-.
  pose proof (Byte.to_N_bounded b0). pose proof (Byte.to_N_bounded b1).
  pose proof (Byte.to_N_bounded b2). pose proof (Byte.to_N_bounded b3).
  change (2 ^ 32)%N with 4294967296%N. lia.
Qed.

(** X2. Whatever the segments are, a payload that the reader returns is
    the frame at the head of the stream: the stream was four bytes that
    announce the length of the payload, the payload, and what is still
    pending; and the length is below [2^32]. *)
Theorem recv_frame_data_sound sock payload sock' :
  recv_frame_data sock = (Return payload, sock') ->
  exists prefix frame_size,
    pending sock = prefix ++ payload ++ pending sock' /\
    unpack_L prefix = Return frame_size /\
    length payload = N.to_nat frame_size /\
    (frame_size < 2 ^ 32)%N.
Proof.
  unfold recv_frame_data, recv_exactly. intros Hrun.
  destruct (recv_loop 4 _ 4 [] sock) as [[size_data| |] sock1] eqn:Hrun1;
    try discriminate.
  destruct (recv_loop_exact _ fits_prefix 4 4 [] sock _ _ (Nat.le_0_l 4) Hrun1)
    as (_ & got1 & -> & Hp1).
  cbn [app] in *.
  destruct (unpack_L got1) as [frame_size| |] eqn:Hunpack; try discriminate.
  destruct (recv_loop_exact _ fits_payload _ _ [] sock1 _ _ (Nat.le_0_l _) Hrun)
    as (Hlen & got2 & -> & Hp2).
  cbn [app] in *.
  exists got1, frame_size. rewrite Hp1, Hp2.
  eauto using unpack_L_bound.
Qed.

Lemma decode_and_publish_some frame_data frame w :
  decode_payload frame_data = Some frame ->
  decode_and_publish frame_data w
  = (Return tt, log EvRelease (set_current_frame frame (log EvAcquire w))).
Proof.
  unfold decode_payload, decode_and_publish, with_frame_lock, call, emit, bind,
    modify, try_finally, of_result.
  destruct (pickle_loads frame_data) as [e|frame_encoded]; [discriminate|].
  destruct (imdecode frame_encoded) as [e|frame']; [discriminate|].
  intros [= ->]. reflexivity.
Qed.

Lemma decode_and_publish_none frame_data w :
  decode_payload frame_data = None ->
  exists e, decode_and_publish frame_data w = (Raise e, w).
Proof.
  unfold decode_payload, decode_and_publish, call, bind, of_result.
  destruct (pickle_loads frame_data) as [e|frame_encoded]; [eauto|].
  destruct (imdecode frame_encoded) as [e|frame']; [eauto|discriminate].
Qed.

Lemma well_framed_inv fr :
  well_framed fr = true ->
  exists frame_size,
    unpack_L fr.1 = Return frame_size /\ length fr.2 = N.to_nat frame_size.
Proof.
  unfold well_framed. destruct (unpack_L fr.1) as [frame_size| |]; try discriminate.
  intros Heq%N.eqb_eq. exists frame_size. split; [reflexivity|]. lia.
Qed.

(** The first frame of the stream is read, and nothing more. *)
Lemma receive_one_frame fr rest w :
  pending (stream_socket w) = frame_bytes fr ++ rest ->
  well_framed fr = true ->
  exists sock',
    pending sock' = rest /\
    receive_one w = decode_and_publish fr.2 (set_stream_socket sock' w).
Proof.
  intros Hpend (frame_size & Hunpack & Hlen)%well_framed_inv.
  unfold frame_bytes in Hpend. rewrite <- app_assoc in Hpend.
  destruct (recv_frame_data_complete _ _ _ _ _ Hpend Hunpack Hlen)
    as (sock1 & sock2 & _ & _ & _ & Hrest & Hrun).
  exists sock2. split; [exact Hrest|].
  rewrite receive_one_eq. apply bind_run. rewrite recv_frame_eq, Hrun. reflexivity.
Qed.

Lemma slot_after_last frames fr slot :
  forallb decodes frames = true ->
  last frames = Some fr ->
  decode_payload fr.2 = Some (slot_after frames slot).
Proof.
  revert slot. induction frames as [|fr0 frames IH]; intros slot Hall Hlast;
    [discriminate|].
  cbn [forallb] in Hall. apply andb_prop in Hall as [Hfr0 Hall].
  unfold slot_after. cbn [fold_left]. fold (slot_after frames).
  destruct frames as [|fr1 frames].
  - injection Hlast as <-. unfold decodes in Hfr0.
    destruct (decode_payload fr0.2) as [v|]; [reflexivity|discriminate].
  - apply IH; [exact Hall|exact Hlast].
Qed.

(** The loop on complete frames followed by a stream that ends inside a
    frame. *)
Lemma receive_loop_frames :
  forall frames fuel w tail,
    length frames < fuel ->
    running w = true ->
    pending (stream_socket w) = stream_of frames ++ tail ->
    forallb well_framed frames = true ->
    forallb decodes frames = true ->
    incomplete tail = true ->
    exists w',
      receive_loop fuel w = (Raise (ConnectionError "Connection lost"), w') /\
      running w' = true /\
      current_frame w' = slot_after frames (current_frame w) /\
      image_counter w' = image_counter w /\
      files w' = files w /\
      trace w' = trace w ++ concat (map (fun _ => [EvAcquire; EvRelease]) frames).
Proof.
  induction frames as [|fr frames IH]; intros fuel w tail Hfuel Hrun Hpend Hwf Hdec Hinc.
  - destruct fuel as [|fuel]; [cbn in Hfuel; lia|].
    cbn [stream_of map concat app] in Hpend.
    rewrite <- Hpend in Hinc.
    destruct (recv_frame_data_incomplete _ Hinc) as (sock' & Hraise & _).
    cbn [receive_loop]. unfold bind at 1. unfold get. rewrite Hrun.
    rewrite receive_one_eq. unfold bind at 1 2. rewrite recv_frame_eq, Hraise.
    eexists. split; [reflexivity|]. cbn. rewrite app_nil_r. auto.
  - destruct fuel as [|fuel]; [cbn in Hfuel; lia|].
    cbn [forallb] in Hwf, Hdec.
    apply andb_prop in Hwf as [Hwf1 Hwf]. apply andb_prop in Hdec as [Hdec1 Hdec].
    cbn [stream_of map concat] in Hpend. fold (stream_of frames) in Hpend.
    rewrite <- app_assoc in Hpend.
    destruct (receive_one_frame fr _ w Hpend Hwf1) as (sock' & Hrest & Hone).
    unfold decodes in Hdec1.
    destruct (decode_payload fr.2) as [v|] eqn:Hv; [|discriminate].
    rewrite (decode_and_publish_some _ _ _ Hv) in Hone.
    cbn [receive_loop]. unfold bind at 1. unfold get. rewrite Hrun.
    unfold bind at 1. rewrite Hone.
    destruct (IH fuel (log EvRelease (set_current_frame v
                         (log EvAcquire (set_stream_socket sock' w)))) tail)
      as (w' & Hloop & Hrun' & Hslot & Hc & Hf & Htr);
      [cbn [length] in Hfuel; lia|exact Hrun|exact Hrest|exact Hwf|exact Hdec|exact Hinc|].
    exists w'. split; [exact Hloop|]. split; [exact Hrun'|].
    split; [|split; [exact Hc|split; [exact Hf|]]].
    + rewrite Hslot. unfold slot_after. cbn [fold_left]. rewrite Hv. reflexivity.
    + rewrite Htr. cbn [trace log set_current_frame set_stream_socket map concat].
      rewrite <- !app_assoc. reflexivity.
Qed.

Lemma stream_of_length frames :
  forallb well_framed frames = true ->
  4 * length frames <= length (stream_of frames).
Proof.
  induction frames as [|fr frames IH]; intros Hwf; [cbn; lia|].
  cbn [forallb] in Hwf. apply andb_prop in Hwf as [Hwf1 Hwf].
  destruct (well_framed_inv _ Hwf1) as (frame_size & Hunpack & _).
  apply unpack_L_length in Hunpack.
  cbn [stream_of map concat length]. fold (stream_of frames).
  unfold frame_bytes. rewrite !length_app. specialize (IH Hwf). lia.
Qed.

(** X1. A stream of complete frames that all decode, cut into segments in
    any way and ending inside a frame: [receive_frames] publishes every
    frame under the lock, one after the other, so that the slot ends up
    with the decoding of the last one; then it reports the lost connection
    and returns, with the flag still up. *)
Theorem receive_frames_publishes_latest frames tail w :
  running w = true ->
  pending (stream_socket w) = stream_of frames ++ tail ->
  forallb well_framed frames = true ->
  forallb decodes frames = true ->
  incomplete tail = true ->
  exists w',
    receive_frames w = (Return tt, w') /\
    running w' = true /\
    (forall fr, last frames = Some fr -> decode_payload fr.2 = Some (current_frame w')) /\
    (frames = [] -> current_frame w' = current_frame w) /\
    trace w' = trace w ++ concat (map (fun _ => [EvAcquire; EvRelease]) frames)
                       ++ [EvPrint "Frame receiving error: Connection lost"].
Proof.
  intros Hrun Hpend Hwf Hdec Hinc.
  destruct (receive_loop_frames frames (S (length (pending (stream_socket w)))) w tail)
    as (w1 & Hloop & Hrun1 & Hslot & _ & _ & Htr); try assumption.
  { pose proof (stream_of_length frames Hwf). rewrite Hpend, length_app. lia. }
  unfold receive_frames, try_except. rewrite Hloop.
  unfold bind, get, print, emit, modify. rewrite Hrun1.
  eexists. split; [reflexivity|]. cbn [running current_frame trace log].
  split; [exact Hrun1|]. split; [|split].
  - intros fr Hlast. rewrite Hslot. apply slot_after_last; assumption.
  - intros ->. rewrite Hslot. reflexivity.
  - rewrite Htr, <- app_assoc. reflexivity.
Qed.

(** X3. A payload that unpickles but that [cv2.imdecode] cannot decode is
    published all the same: the slot becomes empty, whatever frame it
    held, the loop goes on, and a local save made then reports failure
    without writing. *)
Theorem undecodable_frame_empties_slot fr rest w env filename :
  pending (stream_socket w) = frame_bytes fr ++ rest ->
  well_framed fr = true ->
  decode_payload fr.2 = Some None ->
  exists w',
    receive_one w = (Return tt, w') /\
    current_frame w' = None /\
    pending (stream_socket w') = rest /\
    running w' = running w /\
    exists w'',
      save_image_local env filename w' = (Return false, w'') /\
      files w'' = files w /\ image_counter w'' = image_counter w.
Proof.
  intros Hpend Hwf Hv.
  destruct (receive_one_frame fr rest w Hpend Hwf) as (sock' & Hrest & Hone).
  rewrite (decode_and_publish_some _ _ _ Hv) in Hone.
  eexists. split; [exact Hone|]. cbn [current_frame stream_socket running log
    set_current_frame set_stream_socket].
  split; [reflexivity|]. split; [exact Hrest|]. split; [reflexivity|].
  rewrite save_image_local_eq. cbn [current_frame log set_current_frame].
  eexists. split; [reflexivity|]. split; reflexivity.
Qed.

(** X4. A payload on which [pickle.loads] or [cv2.imdecode] raises ends
    [receive_frames]: the error is printed, the method returns, the slot
    keeps the frame it had, the flag stays up, the lock is not taken and
    the rest of the stream is left unread. *)
Theorem decode_error_ends_receiver fr rest w :
  running w = true ->
  pending (stream_socket w) = frame_bytes fr ++ rest ->
  well_framed fr = true ->
  decode_payload fr.2 = None ->
  exists e w',
    receive_frames w = (Return tt, w') /\
    current_frame w' = current_frame w /\
    running w' = true /\
    pending (stream_socket w') = rest /\
    trace w' = trace w ++ [EvPrint ("Frame receiving error: " +:+ exn_str e)].
Proof.
  intros Hrun Hpend Hwf Hnone.
  destruct (receive_one_frame fr rest w Hpend Hwf) as (sock' & Hrest & Hone).
  destruct (decode_and_publish_none _ (set_stream_socket sock' w) Hnone) as [e He].
  rewrite He in Hone.
  exists e. unfold receive_frames, try_except. cbn [receive_loop].
  unfold bind at 1. unfold get. rewrite Hrun. unfold bind at 1. rewrite Hone.
  unfold bind, get, print, emit, modify. cbn [running set_stream_socket]. rewrite Hrun.
  eexists. split; [reflexivity|].
  cbn [current_frame running stream_socket trace log set_stream_socket]. auto.
Qed.

End FramingFacts.

(** ** The save operations and the keys: effects *)

Section KeyFacts.
Import PyStr Py Wire Client Framing.
Local Open Scope py_scope.
Context `{Externals}.
#[local] Set Warnings "-clear-no-such-hyp".

Lemma sent_commands_app (tr1 tr2 : list event) :
  sent_commands (tr1 ++ tr2) = sent_commands tr1 ++ sent_commands tr2.
Proof.
  induction tr1 as [|ev tr1 IH]; [reflexivity|].
  destruct ev; cbn [sent_commands app]; rewrite IH; reflexivity.
Qed.

Ltac trace_fields :=
  cbn [running current_frame image_counter stream_socket files trace
       log write_file set_image_counter set_current_frame];
  rewrite ?imwrite_paths_app, ?sent_commands_app;
  cbn [imwrite_paths sent_commands];
  rewrite ?app_nil_r, <- ?app_assoc.

(** [save_image_remote] in one equation: its result is whether the server
    took the command and answered [SAVED:...]. *)
Lemma save_image_remote_effect srv filename w :
  exists line,
    save_image_remote srv filename w
    = (Return (remote_succeeds srv),
       log (EvPrint line)
         (match send_error srv with
          | Some _ => log (EvSend (command_for filename)) w
          | None => log (EvRecv 1024) (log (EvSend (command_for filename)) w)
          end)).
Proof.
  rewrite save_image_remote_eq. cbv zeta. unfold remote_succeeds, command_for.
  destruct (send_error srv) as [e|]; [eauto|].
  destruct (reply srv) as [e|raw]; [eauto|].
  destruct (decode_utf8 (firstn 1024 raw)) as [e|response]; [eauto|].
  destruct (startswith response "SAVED:") eqn:Hstarts; [|eauto].
  destruct (startswith_SAVED_split response Hstarts) as (path & _ & Hsplit).
  unfold split1_snd. rewrite Hsplit. eauto.
Qed.

(** X5. A remote save is one request and one line for the operator: it
    sends [SAVE], or [SAVE:<name>] when it is given a name that is not
    empty, reads once, up to 1024 bytes, unless sending failed, and prints
    one line.  It changes nothing else: not the counter, the slot, the
    flag, the files or the stream. *)
Theorem remote_save_is_one_exchange srv filename w :
  exists line w',
    save_image_remote srv filename w = (Return (remote_succeeds srv), w') /\
    trace w' = trace w
               ++ [EvSend (match filename with
                           | Some (String c name) => "SAVE:" +:+ String c name
                           | _ => "SAVE"
                           end)]
               ++ (if send_error srv is None then [EvRecv 1024] else [])
               ++ [EvPrint line] /\
    image_counter w' = image_counter w /\
    current_frame w' = current_frame w /\
    running w' = running w /\
    files w' = files w /\
    stream_socket w' = stream_socket w.
Proof.
  destruct (save_image_remote_effect srv filename w) as [line Hrun].
  exists line. eexists. split; [exact Hrun|].
  assert (command_for filename
          = match filename with
            | Some (String c name) => "SAVE:" +:+ String c name
            | _ => "SAVE"
            end) as <- by (destruct filename as [[|c name]|]; reflexivity).
  destruct (send_error srv); trace_fields; repeat split.
Qed.

(** [save_image_local] returns [True] exactly when there is a frame and the
    write succeeds. *)
Lemma save_image_local_result env filename w :
  (save_image_local env filename w).1 = Return (local_result env w).
Proof.
  rewrite save_image_local_eq. unfold local_result, local_succeeds.
  destruct (current_frame w); [|reflexivity].
  destruct filename; cbv zeta beta iota; destruct (imwrite_result env) as [e|[|]];
    reflexivity.
Qed.

(** What a local save leaves behind, field by field. *)
Lemma save_image_local_effect env filename w :
  let w' := (save_image_local env filename w).2 in
  let filepath := path_join local_save_dir (local_name env filename w) in
  running w' = running w /\
  current_frame w' = current_frame w /\
  stream_socket w' = stream_socket w /\
  sent_commands (trace w') = sent_commands (trace w) /\
  image_counter w'
    = (match filename, current_frame w with
       | None, Some _ => image_counter w + 1
       | _, _ => image_counter w
       end)%N /\
  imwrite_paths (trace w')
    = imwrite_paths (trace w) ++ (if current_frame w is Some _ then [filepath] else []) /\
  files w'
    = match current_frame w with
      | Some f => if local_succeeds env then <[filepath := f]> (files w) else files w
      | None => files w
      end.
Proof.
  cbv zeta. rewrite save_image_local_eq. unfold local_succeeds, local_name.
  destruct (current_frame w) as [f|] eqn:Hframe.
  - destruct filename as [name|]; cbv zeta beta iota;
      destruct (imwrite_result env) as [e|[|]]; cbn [snd]; trace_fields;
      rewrite ?Hframe; repeat split.
  - cbn [snd]. trace_fields. rewrite ?Hframe. destruct filename; repeat split.
Qed.

(** X6. What a local save does to the files: with a frame in the slot and
    a write that succeeds, the file at the path holds that frame and no
    other file has changed; in every other case (no frame, [cv2.imwrite]
    returning [False] or raising) the files are as before. *)
Theorem local_save_writes_slot_frame_or_nothing env filename w :
  let w' := (save_image_local env filename w).2 in
  (forall f, current_frame w = Some f -> local_succeeds env = true ->
     exists filepath,
       (save_image_local env filename w).1 = Return true /\
       files w' = <[filepath := f]> (files w) /\
       imwrite_paths (trace w') = imwrite_paths (trace w) ++ [filepath]) /\
  ((save_image_local env filename w).1 <> Return true -> files w' = files w).
Proof.
  cbv zeta.
  destruct (save_image_local_effect env filename w)
    as (_ & _ & _ & _ & _ & Hpaths & Hfiles).
  rewrite save_image_local_result. unfold local_result. split.
  - intros f Hframe Hok. rewrite Hframe, Hok in *. eauto.
  - destruct (current_frame w); [|intros _; exact Hfiles].
    destruct (local_succeeds env); [congruence|intros _; exact Hfiles].
Qed.

Lemma surjective_run {A} (m : M World A) w : m w = ((m w).1, (m w).2).
Proof. destruct (m w). reflexivity. Qed.

Ltac decide_key Hkey :=
  cbv zeta; unfold key_of in Hkey; rewrite Hkey;
  cbv beta iota delta [Z.eqb Pos.eqb orb].

(** 's' or SPACE. *)
Lemma handle_key_s t w :
  ((key_of t =? 115) || (key_of t =? 32))%Z = true ->
  exists w',
    handle_key t w = (Return Continue, w') /\ same_session w w' /\
    image_counter w' = (image_counter w + if remote_succeeds (server t) then 1 else 0)%N /\
    files w' = files w /\
    imwrite_paths (trace w') = imwrite_paths (trace w) /\
    sent_commands (trace w') = sent_commands (trace w) ++ ["SAVE"].
Proof.
  intros Hkey.
  destruct (save_image_remote_effect (server t) None w) as [line Hrun].
  unfold handle_key.
  apply orb_prop in Hkey as [Hkey%Z.eqb_eq|Hkey%Z.eqb_eq]; decide_key Hkey;
    rewrite (bind_run _ _ _ _ _ Hrun);
    unfold bind, ret, incr_image_counter, modify, same_session;
    destruct (remote_succeeds (server t)); destruct (send_error (server t));
    eexists; (split; [reflexivity|]); trace_fields;
    repeat split; rewrite ?N.add_0_r; reflexivity.
Qed.

(** 'l'. *)
Lemma handle_key_l t w :
  key_of t = 108%Z ->
  exists w',
    handle_key t w = (Return Continue, w') /\ same_session w w' /\
    image_counter w' = (image_counter w + if current_frame w is Some _ then 1 else 0)%N /\
    files w' = (save_image_local (machine t) None w).2.(files) /\
    imwrite_paths (trace w')
      = imwrite_paths (trace w)
        ++ (if current_frame w is Some _
            then [path_join local_save_dir (local_name (machine t) None w)] else []) /\
    sent_commands (trace w') = sent_commands (trace w).
Proof.
  intros Hkey. unfold handle_key. decide_key Hkey.
  destruct (save_image_local_effect (machine t) None w)
    as (Hr & Hf & Hs & Hsent & Hc & Hpaths & _).
  pose proof (save_image_local_result (machine t) None w) as Hres.
  unfold bind at 1. rewrite (surjective_run (save_image_local (machine t) None) w), Hres.
  set (w1 := (save_image_local (machine t) None w).2) in *.
  unfold bind, ret, get, print, emit, modify, same_session.
  destruct (local_result (machine t) w); eexists; (split; [reflexivity|]);
    trace_fields; rewrite Hr, Hf, Hs, Hsent, Hc, Hpaths;
    destruct (current_frame w); rewrite ?N.add_0_r; repeat split.
Qed.

(** 'b'. *)
Lemma handle_key_b t w :
  key_of t = 98%Z ->
  let filename :=
    dataset_filename (image_counter w + 1)
      (drop_last 3 (strftime_stamp (now (machine t)))) in
  let w0 := log EvNow (set_image_counter (image_counter w + 1) w) in
  exists line w',
    let w1 :=
      log (EvPrint line)
        (match send_error (server t) with
         | Some _ => log (EvSend ("SAVE:" +:+ filename)) w0
         | None => log (EvRecv 1024) (log (EvSend ("SAVE:" +:+ filename)) w0)
         end) in
    handle_key t w = (Return Continue, w') /\ same_session w w' /\
    image_counter w'
      = (image_counter w + 1
         + if (remote_succeeds (server t) || local_result (machine t) w)%bool
           then 1 else 0)%N /\
    files w' = (save_image_local (machine t) (Some filename) w1).2.(files) /\
    imwrite_paths (trace w')
      = imwrite_paths (trace w)
        ++ (if current_frame w is Some _
            then [path_join local_save_dir filename] else []) /\
    sent_commands (trace w') = sent_commands (trace w) ++ ["SAVE:" +:+ filename].
Proof.
  intros Hkey filename w0. unfold handle_key. decide_key Hkey.
  unfold incr_image_counter, timestamp_now.
  unfold bind at 1. unfold modify at 1. unfold bind at 1 2. unfold emit at 1.
  unfold modify at 1. unfold ret at 1. unfold bind at 1. unfold get at 1.
  cbn [image_counter log set_image_counter]. fold filename. fold w0.
  destruct (save_image_remote_effect (server t) (Some filename) w0) as [line Hrun].
  assert (command_for (Some filename) = "SAVE:" +:+ filename) as Hcmd by reflexivity.
  rewrite Hcmd in Hrun. exists line.
  set (w1 := log (EvPrint line) _) in *.
  unfold bind at 1. rewrite Hrun.
  destruct (save_image_local_effect (machine t) (Some filename) w1)
    as (Hr & Hf & Hs & Hsent & Hc & Hpaths & _).
  pose proof (save_image_local_result (machine t) (Some filename) w1) as Hres.
  unfold bind at 1.
  rewrite (surjective_run (save_image_local (machine t) (Some filename)) w1), Hres.
  set (w2 := (save_image_local (machine t) (Some filename) w1).2) in *.
  assert (current_frame w1 = current_frame w /\ running w1 = running w /\
          stream_socket w1 = stream_socket w /\ image_counter w1 = (image_counter w + 1)%N /\
          imwrite_paths (trace w1) = imwrite_paths (trace w) /\
          sent_commands (trace w1) = sent_commands (trace w) ++ ["SAVE:" +:+ filename])
    as (Hf1 & Hr1 & Hs1 & Hc1 & Hp1 & Hsent1).
  { subst w1 w0. destruct (send_error (server t)); trace_fields; repeat split. }
  assert (local_result (machine t) w1 = local_result (machine t) w) as Hlr
    by (unfold local_result; rewrite Hf1; reflexivity).
  rewrite Hlr. unfold local_name in Hpaths. rewrite Hf1 in Hpaths.
  assert (image_counter w2 = (image_counter w + 1)%N) as Hc2
    by (rewrite Hc, Hc1; reflexivity).
  unfold bind, ret, modify, same_session.
  destruct (remote_succeeds (server t)); destruct (local_result (machine t) w);
    cbn [orb]; eexists; (split; [reflexivity|]); trace_fields;
    rewrite ?Hr, ?Hf, ?Hs, ?Hsent, ?Hc2, ?Hpaths, ?Hr1, ?Hf1, ?Hs1, ?Hp1, ?Hsent1;
    rewrite ?N.add_0_r; repeat split.
Qed.

(** Every other key, and no key at all. *)
Lemma handle_key_other t w :
  no_save_key t = true ->
  exists w',
    handle_key t w = (Return (if quit_key t then Break else Continue), w') /\
    same_session w w' /\
    image_counter w' = image_counter w /\
    files w' = files w /\
    imwrite_paths (trace w') = imwrite_paths (trace w) /\
    sent_commands (trace w') = sent_commands (trace w).
Proof.
  unfold no_save_key, quit_key, key_of, handle_key. cbv zeta.
  intros Hno%negb_true_iff.
  apply orb_false_elim in Hno as [Hno H98]. apply orb_false_elim in Hno as [Hno H108].
  apply orb_false_elim in Hno as [H115 H32].
  rewrite H115, H32, H108, H98. cbn [orb].
  unfold display_instructions, print, emit, bind, ret, modify, same_session.
  destruct ((_ =? 113)%Z || (_ =? 27)%Z)%bool; [eexists; repeat split|].
  destruct (_ =? 104)%Z; eexists; (split; [reflexivity|]); trace_fields; repeat split.
Qed.

Lemma key_cases t :
  ((key_of t =? 115) || (key_of t =? 32))%Z = true \/ key_of t = 108%Z \/
  key_of t = 98%Z \/ no_save_key t = true.
Proof.
  unfold no_save_key.
  destruct (Z.eqb_spec (key_of t) 115); [auto|].
  destruct (Z.eqb_spec (key_of t) 32); [auto|].
  destruct (Z.eqb_spec (key_of t) 108); [auto|].
  destruct (Z.eqb_spec (key_of t) 98); auto.
Qed.

(** X7. 's' or SPACE counts a save exactly when the server acknowledged
    it: the counter goes up by one if the command was sent and the answer
    starts with [SAVED:], and stays as it is otherwise; in both cases the
    loop goes on, the command sent is [SAVE] without a name, and no file is
    written. *)
Theorem remote_key_counts_acknowledged_saves t w :
  ((key_of t =? 115) || (key_of t =? 32))%Z = true ->
  exists w',
    handle_key t w = (Return Continue, w') /\
    image_counter w' = (image_counter w + if remote_succeeds (server t) then 1 else 0)%N /\
    sent_commands (trace w') = sent_commands (trace w) ++ ["SAVE"] /\
    imwrite_paths (trace w') = imwrite_paths (trace w) /\
    files w' = files w /\
    current_frame w' = current_frame w.
Proof.
  intros Hkey.
  destruct (handle_key_s t w Hkey) as (w' & Hrun & (_ & Hf & _) & Hc & Hfiles & Hp & Hs).
  exists w'. auto 10.
Qed.

(** X8. 'b' makes up one name, from the incremented counter and the clock,
    and uses it on both sides: the command sent is [SAVE:<name>] and the
    local file, when there is a frame, is [<name>] in the local save
    directory.  The counter ends one higher than before when both saves
    fail and two higher as soon as one of them succeeds. *)
Theorem both_key_shares_one_name t w :
  key_of t = 98%Z ->
  let name :=
    dataset_filename (image_counter w + 1)
      (drop_last 3 (strftime_stamp (now (machine t)))) in
  exists w',
    handle_key t w = (Return Continue, w') /\
    sent_commands (trace w') = sent_commands (trace w) ++ ["SAVE:" +:+ name] /\
    imwrite_paths (trace w')
      = imwrite_paths (trace w)
        ++ (if current_frame w is Some _ then ["ball_dataset_local/" +:+ name] else []) /\
    image_counter w'
      = (image_counter w + 1
         + if (remote_succeeds (server t) || local_result (machine t) w)%bool
           then 1 else 0)%N.
Proof.
  intros Hkey name.
  destruct (handle_key_b t w Hkey) as (line & w' & Hrun & _ & Hc & _ & Hp & Hs).
  exists w'. split; [exact Hrun|]. split; [exact Hs|]. split; [exact Hp|exact Hc].
Qed.

(** X9. A key other than 's', SPACE, 'l' and 'b', or no key at all
    ([cv2.waitKey] returning -1), saves nothing: the counter, the files and
    the slot are as before, nothing is sent and nothing is written; the
    loop ends exactly on 'q' and ESC.  Only the low eight bits of the value
    of [cv2.waitKey] count. *)
Theorem other_keys_save_nothing t w :
  no_save_key t = true ->
  exists w',
    handle_key t w = (Return (if quit_key t then Break else Continue), w') /\
    image_counter w' = image_counter w /\
    files w' = files w /\
    current_frame w' = current_frame w /\
    running w' = running w /\
    imwrite_paths (trace w') = imwrite_paths (trace w) /\
    sent_commands (trace w') = sent_commands (trace w).
Proof.
  intros Hno.
  destruct (handle_key_other t w Hno) as (w' & Hrun & (Hr & Hf & _) & Hc & Hfiles & Hp & Hs).
  exists w'. auto 10.
Qed.

(** What comes before the key in an iteration. *)
Lemma iteration_pre t w :
  exists w1,
    iteration t w = handle_key t w1 /\
    running w1 = running w /\ image_counter w1 = image_counter w /\
    files w1 = files w /\
    imwrite_paths (trace w1) = imwrite_paths (trace w) /\
    sent_commands (trace w1) = sent_commands (trace w).
Proof.
  unfold iteration, receiver_publishes, show_frame, with_frame_lock, try_finally.
  destruct (published t) as [frame|];
    unfold bind, get, emit, modify, ret; cbn [current_frame log set_current_frame].
  - destruct frame as [f|]; eexists; (split; [reflexivity|]); trace_fields; repeat split.
  - destruct (current_frame w) as [f|]; eexists; (split; [reflexivity|]);
      trace_fields; repeat split.
Qed.

Lemma in_save_dir_generated env w :
  in_save_dir (path_join local_save_dir (local_name env None w)) = true.
Proof.
  unfold local_name. rewrite path_join_dataset_filename.
  apply (startswith_app "ball_dataset_local/ball_dataset_").
Qed.

(** One iteration: the counter, the paths written and the files. *)
Lemma iteration_summary t w :
  exists ctl w' ps,
    iteration t w = (Return ctl, w') /\
    running w' = running w /\
    (image_counter w <= image_counter w' <= image_counter w + 2)%N /\
    imwrite_paths (trace w') = imwrite_paths (trace w) ++ ps /\
    length ps <= 1 /\
    forallb in_save_dir ps = true /\
    dom (files w') ⊆ dom (files w) ∪ list_to_set ps /\
    (ctl = Break <-> quit_key t = true).
Proof.
  destruct (iteration_pre t w) as (w1 & -> & Hr1 & Hc1 & Hf1 & Hp1 & _).
  rewrite <- Hr1, <- Hc1, <- Hf1, <- Hp1. clear Hr1 Hc1 Hf1 Hp1.
  destruct (key_cases t) as [Hkey|[Hkey|[Hkey|Hkey]]].
  - destruct (handle_key_s t w1 Hkey) as (w' & -> & (Hr & _) & Hc & Hfiles & Hp & _).
    exists Continue, w', []. rewrite app_nil_r, Hfiles.
    repeat split; auto; try (destruct (remote_succeeds _); lia);
      try set_solver; try discriminate.
    unfold quit_key. intros Hq.
    apply orb_prop in Hkey as [Hk%Z.eqb_eq|Hk%Z.eqb_eq]; rewrite Hk in Hq; discriminate.
  - destruct (handle_key_l t w1 Hkey) as (w' & -> & (Hr & _) & Hc & Hfiles & Hp & _).
    destruct (save_image_local_effect (machine t) None w1)
      as (_ & _ & _ & _ & _ & _ & Hwritten).
    cbv zeta in Hwritten. rewrite Hwritten in Hfiles. clear Hwritten.
    pose proof (in_save_dir_generated (machine t) w1) as Hdir.
    exists Continue, w'. eexists. split; [reflexivity|]. split; [exact Hr|].
    split; [destruct (current_frame w1); lia|]. split; [exact Hp|].
    rewrite Hfiles. unfold quit_key. rewrite Hkey.
    destruct (current_frame w1) as [f|]; cbn [length forallb];
      [rewrite Hdir; destruct (local_succeeds _); rewrite ?dom_insert_L|];
      repeat split; auto; try set_solver; discriminate.
  - destruct (handle_key_b t w1 Hkey) as (line & w' & -> & (Hr & _) & Hc & Hfiles & Hp & _).
    match type of Hfiles with
    | _ = files (save_image_local ?env ?fn ?w0).2 =>
        destruct (save_image_local_effect env fn w0) as (_ & _ & _ & _ & _ & _ & Hwritten);
        cbv zeta in Hwritten; rewrite Hwritten in Hfiles; clear Hwritten;
        assert (current_frame w0 = current_frame w1 /\ files w0 = files w1) as [Hf0 Hfl0]
          by (destruct (send_error (server t)); split; reflexivity);
        rewrite Hf0, Hfl0 in Hfiles
    end.
    cbn [local_name] in Hfiles.
    rewrite path_join_dataset_filename in Hp, Hfiles.
    exists Continue, w'. eexists. split; [reflexivity|]. split; [exact Hr|].
    split; [destruct (_ || _)%bool; lia|]. split; [exact Hp|].
    rewrite Hfiles. unfold quit_key. rewrite Hkey.
    destruct (current_frame w1) as [f|]; cbn [length forallb];
      [unfold in_save_dir at 1; rewrite startswith_app;
       destruct (local_succeeds _); rewrite ?dom_insert_L|];
      repeat split; auto; try set_solver; discriminate.
  - destruct (handle_key_other t w1 Hkey) as (w' & -> & (Hr & _) & Hc & Hfiles & Hp & _).
    eexists. exists w', []. rewrite app_nil_r, Hfiles, Hc.
    repeat split; auto; try lia; try set_solver.
    + destruct (quit_key t); [reflexivity|discriminate].
    + intros ->. reflexivity.
Qed.

Lemma quit_key_no_save t : quit_key t = true -> no_save_key t = true.
Proof.
  unfold quit_key, no_save_key.
  intros [Hk%Z.eqb_eq|Hk%Z.eqb_eq]%orb_prop; rewrite Hk; reflexivity.
Qed.

(** The iterations of a session, summed up. *)
Lemma run_ticks_summary ticks :
  forall w w',
    run_ticks ticks w = Some w' ->
    (image_counter w <= image_counter w'
     <= image_counter w + 2 * N.of_nat (length ticks))%N /\
    exists ps,
      imwrite_paths (trace w') = imwrite_paths (trace w) ++ ps /\
      length ps <= length ticks /\
      forallb in_save_dir ps = true /\
      dom (files w') ⊆ dom (files w) ∪ list_to_set ps.
Proof.
  induction ticks as [|t ticks IH]; intros w w'; cbn [run_ticks].
  - intros [= ->]. split; [lia|]. exists []. rewrite app_nil_r.
    repeat split; auto. set_solver.
  - destruct (running w); [|discriminate].
    destruct (iteration_summary t w)
      as (ctl & w1 & ps1 & -> & _ & Hc1 & Hp1 & Hl1 & Hd1 & Hf1 & _).
    destruct ctl; [|discriminate]. intros Hrest.
    destruct (IH w1 w' Hrest) as (Hc & ps & Hp & Hl & Hd & Hf).
    split; [cbn [length]; lia|].
    exists (ps1 ++ ps). rewrite Hp, Hp1, <- app_assoc, length_app, forallb_app, Hd1, Hd.
    repeat split; auto; [cbn [length]; lia|].
    rewrite list_to_set_app_L. set_solver.
Qed.

(** X10. The counter never goes down, and an iteration of the display loop
    raises it by two at most: after any number of iterations it lies
    between its old value and its old value plus twice that number. *)
Theorem counter_is_monotone ticks w w' :
  run_ticks ticks w = Some w' ->
  (image_counter w <= image_counter w'
   <= image_counter w + 2 * N.of_nat (length ticks))%N.
Proof. intros Hrun. apply (run_ticks_summary ticks w w' Hrun). Qed.

(** X11. Whatever keys are pressed, the display loop writes one file per
    iteration at most, and only files of the dataset inside the local save
    directory: every path handed to [cv2.imwrite] starts with
    [ball_dataset_local/ball_dataset_], and no file appears anywhere
    else. *)
Theorem loop_writes_inside_save_dir ticks w w' :
  run_ticks ticks w = Some w' ->
  exists ps,
    imwrite_paths (trace w') = imwrite_paths (trace w) ++ ps /\
    length ps <= length ticks /\
    forallb in_save_dir ps = true /\
    dom (files w') ⊆ dom (files w) ∪ list_to_set ps.
Proof. intros Hrun. apply (run_ticks_summary ticks w w' Hrun). Qed.

(** X12. 'q' or ESC ends the display loop at once: what the surroundings
    would have done afterwards plays no part, and the quitting iteration
    itself saves nothing. *)
Theorem quit_ends_display_loop before t after w w1 :
  run_ticks before w = Some w1 ->
  running w1 = true ->
  quit_key t = true ->
  exists w',
    display_loop (before ++ t :: after) w = (Return tt, w') /\
    image_counter w' = image_counter w1 /\
    files w' = files w1 /\
    imwrite_paths (trace w') = imwrite_paths (trace w1) /\
    sent_commands (trace w') = sent_commands (trace w1).
Proof.
  intros Hbefore Hrun Hquit.
  rewrite (display_loop_run_ticks before w w1 (t :: after) Hbefore).
  cbn [display_loop]. unfold bind at 1. unfold get. rewrite Hrun.
  destruct (iteration_pre t w1) as (w2 & Hiter & _ & Hc2 & Hf2 & Hp2 & Hs2).
  destruct (handle_key_other t w2 (quit_key_no_save t Hquit))
    as (w' & Hkey & _ & Hc & Hf & Hp & Hs).
  rewrite Hquit in Hkey. unfold bind. rewrite Hiter, Hkey.
  exists w'. split; [reflexivity|]. repeat split; congruence.
Qed.

End KeyFacts.

(** ** Generated names *)

Section NameFacts.
Import PyStr Py Wire Client Framing.
Context `{Externals}.

Lemma digit_value_digit_char (d : N) : (d < 10)%N -> digit_value (digit_char d) = d.
Proof.
  intros Hd. unfold digit_value, digit_char.
  rewrite N_ascii_embedding by lia. lia.
Qed.

Lemma digits_value_from_snoc (s : string) (c : ascii) :
  forall acc,
    digits_value_from acc (s +:+ String c "")
    = (digits_value_from acc s * 10 + digit_value c)%N.
Proof.
  induction s as [|c' s IH]; intros acc; [reflexivity|].
  rewrite app_cons. cbn [digits_value_from]. apply IH.
Qed.

Lemma digits_value_dec_fuel :
  forall (fuel : nat) (n : N),
    (n < 10 ^ N.of_nat (S fuel))%N -> digits_value (dec_fuel (S fuel) n) = n.
Proof.
  unfold digits_value.
  induction fuel as [|fuel IH]; intros n Hn; rewrite dec_fuel_S;
    destruct (N.ltb_spec n 10) as [Hlt|Hge].
  - cbn [digits_value_from]. rewrite digit_value_digit_char by lia. lia.
  - change (10 ^ N.of_nat 1)%N with 10%N in Hn. lia.
  - cbn [digits_value_from]. rewrite digit_value_digit_char by lia. lia.
  - rewrite digits_value_from_snoc, IH, digit_value_digit_char.
    + pose proof (N.div_mod n 10). lia.
    + apply N.mod_lt. lia.
    + rewrite Nat2N.inj_succ, N.pow_succ_r' in Hn.
      apply N.Div0.div_lt_upper_bound; lia.
Qed.

Lemma digits_value_from_zeros (k : nat) (s : string) :
  digits_value_from 0 (replicate_char k "0"%char +:+ s) = digits_value_from 0 s.
Proof. induction k as [|k IH]; [reflexivity|]. exact IH. Qed.

(** Reading back the number that [{:0wd}] printed. *)
Lemma digits_value_format_0d (w : nat) (n : N) : digits_value (format_0d w n) = n.
Proof.
  unfold format_0d, zfill, digits_value. rewrite digits_value_from_zeros.
  apply digits_value_dec_fuel, str_of_N_fuel.
Qed.

Lemma lacks_app (c : ascii) (s t : string) :
  lacks c (s +:+ t) = lacks c s && lacks c t.
Proof.
  induction s as [|c' s IH]; [reflexivity|].
  rewrite app_cons. cbn [lacks]. rewrite IH, andb_assoc. reflexivity.
Qed.

Lemma digit_char_not_underscore (d : N) :
  (d < 10)%N -> Ascii.eqb (digit_char d) "_" = false.
Proof.
  intros Hd. apply Ascii.eqb_neq. intros Heq.
  apply (f_equal N_of_ascii) in Heq. unfold digit_char in Heq.
  rewrite N_ascii_embedding in Heq by lia. cbn in Heq. lia.
Qed.

Lemma lacks_dec_fuel (fuel : nat) : forall n, lacks "_" (dec_fuel fuel n) = true.
Proof.
  induction fuel as [|fuel IH]; intros n; [reflexivity|].
  rewrite dec_fuel_S. destruct (N.ltb_spec n 10) as [Hlt|Hge].
  - cbn [lacks]. rewrite digit_char_not_underscore by lia. reflexivity.
  - rewrite lacks_app, IH. cbn [lacks].
    rewrite digit_char_not_underscore by (apply N.mod_lt; lia). reflexivity.
Qed.

Lemma lacks_zeros (k : nat) : lacks "_" (replicate_char k "0"%char) = true.
Proof. induction k as [|k IH]; [reflexivity|]. exact IH. Qed.

Lemma lacks_format_0d (w : nat) (n : N) : lacks "_" (format_0d w n) = true.
Proof.
  unfold format_0d, zfill, str_of_N. rewrite lacks_app, lacks_zeros, lacks_dec_fuel.
  reflexivity.
Qed.

(** Two strings cut at the first occurrence of a character. *)
Lemma cut_at_first (c : ascii) (s1 s2 r1 r2 : string) :
  lacks c s1 = true -> lacks c s2 = true ->
  s1 +:+ String c r1 = s2 +:+ String c r2 -> s1 = s2 /\ r1 = r2.
Proof.
  revert s2. induction s1 as [|c1 s1 IH]; intros [|c2 s2] H1 H2 Heq;
    cbn [lacks] in H1, H2; rewrite ?app_cons, ?app_empty_l in Heq.
  - injection Heq as ->. auto.
  - injection Heq as <- _. rewrite Ascii.eqb_refl in H2. discriminate.
  - injection Heq as -> _. rewrite Ascii.eqb_refl in H1. discriminate.
  - injection Heq as -> Heq.
    apply andb_prop in H1 as [_ H1]. apply andb_prop in H2 as [_ H2].
    destruct (IH s2 H1 H2 Heq) as [-> ->]. auto.
Qed.

Lemma dataset_filename_inj c c' ts ts' :
  dataset_filename c ts = dataset_filename c' ts' -> c = c'.
Proof.
  unfold dataset_filename. intros Heq.
  apply (inj (String.app "ball_dataset_")) in Heq.
  apply cut_at_first in Heq as [Hseq _]; try apply lacks_format_0d.
  rewrite <- (digits_value_format_0d 4 c), <- (digits_value_format_0d 4 c'), Hseq.
  reflexivity.
Qed.

(** X13. The name made up for a file determines the counter it was made
    from: two names made from different counter values differ, whatever
    the times are and however many digits the values have. *)
Theorem generated_names_are_distinct c c' ts ts' :
  c <> c' -> dataset_filename c ts <> dataset_filename c' ts'.
Proof. intros Hne Heq. apply Hne. exact (dataset_filename_inj c c' ts ts' Heq). Qed.

(** X14. Two local saves without a name in a row, each with a frame and a
    successful write: the second file has another path than the first,
    even within the same millisecond, and afterwards each path holds the
    frame of its own save. *)
Theorem successive_auto_saves_keep_both env1 env2 w f1 f2 :
  current_frame w = Some f1 ->
  local_succeeds env1 = true ->
  local_succeeds env2 = true ->
  let w1 := (save_image_local env1 None w).2 in
  let w2 := (save_image_local env2 None (set_current_frame (Some f2) w1)).2 in
  exists p1 p2,
    p1 <> p2 /\
    imwrite_paths (trace w2) = imwrite_paths (trace w) ++ [p1; p2] /\
    files w2 !! p1 = Some f1 /\
    files w2 !! p2 = Some f2.
Proof.
  intros Hframe Hok1 Hok2 w1 w2.
  destruct (save_image_local_effect env1 None w)
    as (_ & _ & _ & _ & Hc1 & Hp1 & Hf1).
  destruct (save_image_local_effect env2 None (set_current_frame (Some f2) w1))
    as (_ & _ & _ & _ & _ & Hp2 & Hf2).
  cbv zeta in Hc1, Hp1, Hf1, Hp2, Hf2. fold w1 in Hc1, Hp1, Hf1. fold w2 in Hp2, Hf2.
  rewrite Hframe in Hc1, Hp1, Hf1. rewrite Hok1 in Hf1.
  cbn [current_frame files trace set_current_frame] in Hp2, Hf2. rewrite Hok2 in Hf2.
  unfold local_name in *. cbn [image_counter set_current_frame] in Hp2, Hf2.
  rewrite Hc1 in Hp2, Hf2.
  set (p1 := path_join local_save_dir (dataset_filename (image_counter w + 1) _)) in *.
  set (p2 := path_join local_save_dir (dataset_filename (image_counter w + 1 + 1) _)) in *.
  assert (p1 <> p2) as Hne.
  { subst p1 p2. rewrite !path_join_dataset_filename. intros Heq.
    assert (dataset_filename (image_counter w + 1)
              (drop_last 3 (strftime_stamp (now env1)))
            = dataset_filename (image_counter w + 1 + 1)
                (drop_last 3 (strftime_stamp (now env2)))) as Heq'
      by (apply (inj (String.app "ball_dataset_local/")); exact Heq).
    apply dataset_filename_inj in Heq'. lia. }
  exists p1, p2. split; [exact Hne|]. split.
  - rewrite Hp2, Hp1, <- app_assoc. reflexivity.
  - rewrite Hf2, Hf1. split.
    + rewrite lookup_insert_ne by congruence. apply lookup_insert_eq.
    + apply lookup_insert_eq.
Qed.

End NameFacts.

(** ** The two threads: waiting for the lock and for the first frame *)

Section WaitingFacts.
Import PyStr Py Wire Client Threads Waiting.
Context `{Externals}.

Lemma holds_lock_m_steps i s :
  holds_lock_m (pc_m s) = true -> is_Some (step_main i s).
Proof.
  unfold step_main. destruct (pc_m s) as [| | | | |d|d|d| | | | | | |[d|]| |d| |];
    try discriminate; intros _; try (eexists; reflexivity);
    destruct (copy_slot s) as [[d s1]|]; eexists; reflexivity.
Qed.

Lemma holds_lock_r_steps s :
  holds_lock_r (pc_r s) = true -> is_Some (step_receiver s).
Proof.
  unfold step_receiver. destruct (pc_r s); try discriminate; intros _;
    eexists; reflexivity.
Qed.

(** X15. The two threads cannot block each other.  In every state they
    reach, a thread that cannot move has either finished or is waiting for
    the frame lock; and then the other thread holds the lock and can
    move. *)
Theorem lock_never_deadlocks (sock : socket) (schedule : list (tid * input)) (i : input) :
  let s := run schedule (initial sock) in
  (step Receiver i s = None ->
   pc_r s = RDone \/
   (exists frame, pc_r s = RAcquire frame) /\ lock s = Some Main /\
   is_Some (step Main i s)) /\
  (step Main i s = None ->
   pc_m s = MDone \/
   (pc_m s = MAcquire \/ pc_m s = LAcquire) /\ lock s = Some Receiver /\
   is_Some (step Receiver i s)).
Proof.
  intros s.
  assert (invariant s) as Hinv by apply run_invariant, invariant_initial.
  pose proof (inv_lock _ Hinv) as Hlock.
  split; cbn [step].
  - unfold step_receiver.
    destruct (pc_r s) as [| |frame|frame| |e|] eqn:Hpc; try discriminate; [| |auto].
    + pose proof (recv_frame_data_finishes (stream s)) as Hfin.
      destruct (recv_frame_data (stream s)) as [[frame_data|e|] sock'];
        cbn [fst] in Hfin; [| |congruence].
      * destruct (pickle_loads frame_data) as [e|frame_encoded]; [discriminate|].
        destruct (imdecode frame_encoded) as [e|[frame|]]; discriminate.
      * discriminate.
    + cbn [holds_lock_r] in Hlock.
      destruct (lock s) as [holder|] eqn:Hheld; [|discriminate]. intros _. right.
      destruct (holds_lock_m (pc_m s)) eqn:Hm; [|discriminate].
      split; [eauto|]. split; [congruence|]. apply holds_lock_m_steps, Hm.
  - unfold step_main.
    destruct (pc_m s) as [| | | | |d|d|d| | | | | | |[d|]| |d| |] eqn:Hpc;
      try discriminate; try (destruct (copy_slot s) as [[d s1]|]; discriminate);
      try (cbv zeta;
           repeat match goal with |- context [if ?c then _ else _] => destruct c end;
           discriminate);
      [| |auto];
      cbn [holds_lock_m] in Hlock;
      (destruct (lock s) as [holder|] eqn:Hheld; [|discriminate]); intros _; right;
      (destruct (holds_lock_r (pc_r s)) eqn:Hr; [|discriminate]);
      (split; [auto|]); (split; [congruence|]); apply holds_lock_r_steps, Hr.
Qed.

Lemma before_first_frame_step sock who i s s' :
  incomplete (pending sock) = true ->
  before_first_frame sock s -> step who i s = Some s' -> before_first_frame sock s'.
Proof.
  intros Hinc (Hm & Hslot & Hflag & Hlock & Hr).
  destruct who; cbn [step].
  - unfold step_receiver.
    destruct (pc_r s) as [| |frame|frame| |e|] eqn:Hpc; try destruct Hr.
    + rewrite Hflag. intros [= <-]. repeat split; assumption.
    + destruct (recv_frame_data_incomplete _ Hinc) as (sock' & -> & _).
      intros [= <-]. repeat split; assumption.
    + intros [= <-]. repeat split; assumption.
    + discriminate.
  - unfold step_main. rewrite Hm, Hslot, Hflag. intros [= <-].
    unfold before_first_frame. cbn. rewrite Hslot, Hflag, Hlock. auto.
Qed.

(** X16. When the stream ends before the first complete frame, the main
    thread never gets past the wait of line 176, however the threads are
    scheduled: the receiver ends on the lost connection without lowering
    the flag, the slot stays empty, and [start] goes on sleeping; it shows
    no instructions, reads no key and does not reach [stop]. *)
Theorem no_first_frame_no_exit (sock : socket) (schedule : list (tid * input)) :
  incomplete (pending sock) = true ->
  let s := run schedule (initial sock) in
  pc_m s = MWait /\ slot s = None /\ flag s = true /\
  pc_r s <> RRelease /\ (forall frame, pc_r s <> RStore frame).
Proof.
  intros Hinc.
  assert (forall s, before_first_frame sock s ->
                    before_first_frame sock (run schedule s)) as Hrun.
  { induction schedule as [|[who i] schedule IH]; intros s Hs; [exact Hs|].
    cbn [run]. apply IH.
    destruct (step who i s) as [s'|] eqn:Hstep; [|exact Hs].
    exact (before_first_frame_step sock who i s s' Hinc Hs Hstep). }
  cbv zeta.
  destruct (Hrun (initial sock)) as (Hm & Hslot & Hflag & _ & Hr).
  { unfold before_first_frame. cbn. auto. }
  repeat split; try assumption.
  - intros Hpc. rewrite Hpc in Hr. exact Hr.
  - intros frame Hpc. rewrite Hpc in Hr. exact Hr.
Qed.

End WaitingFacts.

(** ** start and stop *)

Section SessionFacts.
Import PyStr Py Wire Client Framing Session.
Local Open Scope py_scope.
Context `{Externals}.

(** [stop], in one equation. *)
Lemma stop_eq cfg p :
  stop cfg p
  = (Return tt,
     {| client :=
          log (EvPrint ("Local images saved to: " +:+ abspath cfg local_save_dir))
            (log (EvPrint ("Camera client stopped. Total images captured: "
                           +:+ str_of_N (image_counter (client p))))
               (set_running false (client p)));
        stream_handle := close (stream_handle p);
        save_handle := close (save_handle p) |}).
Proof. reflexivity. Qed.

Lemma closed_or_absent_close h : closed_or_absent (close h) = true.
Proof. destruct h; reflexivity. Qed.

(** A [try] whose handler always returns does not raise. *)
Lemma try_except_no_raise {W A} (body : M W A) (handler : exn -> M W A) w :
  (forall e, never_fails (handler e)) ->
  forall e, (try_except body handler w).1 <> Raise e.
Proof.
  intros Hh e. unfold try_except.
  destruct (body w) as [[a|e'|] w1]; cbn [fst]; try discriminate.
  destruct (Hh e' w1) as (a & w2 & ->). discriminate.
Qed.

Lemma in_client_never_fails {A} (m : M World A) :
  never_fails m -> never_fails (in_client m).
Proof.
  intros Hm p. unfold in_client. destruct (Hm (client p)) as (a & w' & ->). eauto.
Qed.

(** X17. Whenever [start] returns, [stop] has run: the result is a plain
    return, never an exception, the flag is down, each of the two sockets
    is closed or was never made, and the last two lines printed are the
    total, which is the value of the counter, and the directory. *)
Theorem start_always_stops cfg env p r p' :
  start cfg env p = (r, p') ->
  r <> Unfinished ->
  r = Return tt /\
  running (client p') = false /\
  closed_or_absent (stream_handle p') = true /\
  closed_or_absent (save_handle p') = true /\
  exists before,
    trace (client p')
    = before
      ++ [EvPrint ("Camera client stopped. Total images captured: "
                   +:+ str_of_N (image_counter (client p')));
          EvPrint ("Local images saved to: " +:+ abspath cfg local_save_dir)].
Proof.
  unfold start, try_finally.
  match goal with
  | |- context [try_except ?b ?h p] =>
      pose proof (try_except_no_raise b h p) as Hno; destruct (try_except b h p) as [r1 p1]
  end.
  cbn [fst] in Hno.
  destruct r1 as [[]|e|].
  - rewrite stop_eq. intros [= <- <-] _. split; [reflexivity|].
    cbn [client stream_handle save_handle running image_counter trace log set_running].
    rewrite !closed_or_absent_close. repeat split.
    eexists. rewrite <- app_assoc. reflexivity.
  - exfalso. apply (Hno ltac:(intros e0; apply in_client_never_fails, never_fails_emit) e).
    reflexivity.
  - intros [= <- <-] Hr. congruence.
Qed.

(** X18. If the stream server cannot be reached, [start] says so and shuts
    down: it does not contact the save server, does not raise the flag,
    reads no key and saves nothing.  If the stream server is reached and
    the save server is not, it says so and shuts down in the same way, and
    closes the stream socket it had opened. *)
Theorem failed_connection_shuts_down cfg env p e :
  let stopped w :=
    log (EvPrint ("Local images saved to: " +:+ abspath cfg local_save_dir))
      (log (EvPrint ("Camera client stopped. Total images captured: "
                     +:+ str_of_N (image_counter (client p))))
         (set_running false w)) in
  (connect_error (stream_net env) = Some e -> create_error (stream_net env) = None ->
   start cfg env p
   = (Return tt,
      {| client :=
           stopped (log (EvPrint ("Failed to connect to stream: " +:+ exn_str e))
                      (client p));
         stream_handle := Socket true;
         save_handle := close (save_handle p) |})) /\
  (stream_net env = reachable -> create_error (save_net env) = None ->
   connect_error (save_net env) = Some e ->
   start cfg env p
   = (Return tt,
      {| client :=
           stopped
             (log (EvPrint ("Failed to connect to save server: " +:+ exn_str e))
                (log (EvPrint ("Connected to stream at "
                               +:+ address (go2_ip cfg) (stream_port cfg)))
                   (client p)));
         stream_handle := Socket true;
         save_handle := Socket true |})).
Proof.
  cbv zeta. split.
  - intros Hconnect Hcreate.
    unfold start, connect_to_stream, open_socket. rewrite Hcreate, Hconnect.
    reflexivity.
  - intros Hstream Hcreate Hconnect.
    unfold start, connect_to_stream, connect_to_save_server, open_socket.
    rewrite Hstream, Hcreate, Hconnect. reflexivity.
Qed.

(** X19. The wait of line 176 returns only with a frame in the slot: when
    the flag is up at the start, the display loop is entered with a frame
    to show and with the flag still up; waiting changes neither the
    counter nor the files and prints nothing. *)
Theorem wait_returns_with_first_frame arrivals :
  forall w w',
    running w = true ->
    wait_for_first_frame arrivals w = (Return tt, w') ->
    is_Some (current_frame w') /\ running w' = true /\
    image_counter w' = image_counter w /\ files w' = files w /\
    trace w' = trace w.
Proof.
  induction arrivals as [|p arrivals IH]; intros w w' Hrun;
    cbn [wait_for_first_frame]; unfold still_waiting, bind, get, ret; rewrite Hrun;
    destruct (current_frame w) as [f|] eqn:Hframe.
  - intros [= <-]. rewrite Hframe. eauto 10.
  - discriminate.
  - intros [= <-]. rewrite Hframe. eauto 10.
  - unfold receiver_publishes, modify, ret.
    destruct p as [frame|]; intros Hwait; apply IH in Hwait; try exact Hrun; exact Hwait.
Qed.

End SessionFacts.

(** ** After stop *)

Section StoppedFacts.
Import PyStr Py Wire Client Threads.
Context `{Externals}.

(** X20. Lowering the flag stops the receiver at its next loop test: once
    the main thread is through [stop] and the receiver is at line 58, no
    schedule makes the receiver read from the stream or store into the
    slot again, and the flag never goes back up. *)
Theorem stopped_receiver_publishes_no_more (schedule : list (tid * input)) :
  forall s,
    flag s = false -> pc_m s = MDone -> pc_r s = RWhile ->
    let s' := run schedule s in
    flag s' = false /\ pc_m s' = MDone /\
    (pc_r s' = RWhile \/ pc_r s' = RDone) /\
    slot s' = slot s /\ stream s' = stream s /\ heap s' = heap s.
Proof.
  assert (forall s0 s, flag s = false -> pc_m s = MDone ->
            (pc_r s = RWhile \/ pc_r s = RDone) ->
            slot s = slot s0 -> stream s = stream s0 -> heap s = heap s0 ->
            let s' := run schedule s in
            flag s' = false /\ pc_m s' = MDone /\
            (pc_r s' = RWhile \/ pc_r s' = RDone) /\
            slot s' = slot s0 /\ stream s' = stream s0 /\ heap s' = heap s0) as Hgen.
  { induction schedule as [|[who i] schedule IH]; intros s0 s Hflag Hm Hr Hslot Hstream Hheap;
      [cbn; auto 10|].
    cbn [run]. destruct who; cbn [step].
    - unfold step_receiver. destruct Hr as [Hr|Hr]; rewrite Hr, ?Hflag; cbn [default];
        apply IH; cbn; auto.
    - unfold step_main. rewrite Hm. cbn [default]. apply IH; auto. }
  intros s Hflag Hm Hr. apply Hgen; auto.
Qed.

End StoppedFacts.

(* ===================================================================== *)
(** * The properties at sample inputs *)
(* ===================================================================== *)

Import PyStr Py Wire Client Threads.

Lemma save_counter_arithmetic_witness :
  running sample_world = true /\
  image_counter sample_world = 0%N /\
  (exists w', run_ticks (repeat (sample_tick 115) 3) sample_world = Some w' /\
     image_counter w' = 3%N) /\
  (exists w', run_ticks (repeat (sample_tick 108) 3) sample_world = Some w' /\
     image_counter w' = 3%N).
Proof.
  split; [reflexivity|]. split; [reflexivity|].
  assert (is_Some (current_frame sample_world)) as Hframe by (cbn; eauto).
  destruct (save_counter_arithmetic (repeat (sample_tick 115) 3) sample_world
              eq_refl eq_refl) as (Hremote & _).
  destruct (save_counter_arithmetic (repeat (sample_tick 108) 3) sample_world
              eq_refl eq_refl) as (_ & Hlocal).
  split; [exact (Hremote eq_refl)|exact (Hlocal Hframe eq_refl)].
Defined.

(** Against C1 as the specification states it: three successful local
    saves without name leave the counter at 3, not 0, and two successful
    combined saves leave it at 4, not 2. *)
Lemma save_counter_local_and_both_counterexample :
  image_counter sample_world = 0%N /\
  forallb local_save_tick (repeat (sample_tick 108) 3) = true /\
  forallb both_save_tick (repeat (sample_tick 98) 2) = true /\
  (exists w', run_ticks (repeat (sample_tick 108) 3) sample_world = Some w' /\
     image_counter w' = 3%N /\ image_counter w' <> 0%N) /\
  (exists w', run_ticks (repeat (sample_tick 98) 2) sample_world = Some w' /\
     image_counter w' = 4%N /\ image_counter w' <> 2%N).
Proof.
  split; [reflexivity|]. split; [reflexivity|]. split; [reflexivity|].
  split; eexists; (split; [vm_compute; reflexivity|]); split;
    [reflexivity|discriminate|reflexivity|discriminate].
Qed.

Lemma receiver_consumes_frame_exactly_witness :
  let w := initial_world sample_stream in
  pending (stream_socket w) = [x00; x00; x00; x03] ++ [x61; x62; x63] ++ [x64] /\
  unpack_L [x00; x00; x00; x03] = Return 3%N /\
  length [x61; x62; x63] = N.to_nat 3 /\
  exists sock1 sock2,
    recv_exactly (fun missing => missing) 4 (stream_socket w)
      = (Return [x00; x00; x00; x03], sock1) /\
    pending sock1 = [x61; x62; x63] ++ [x64] /\
    recv_exactly (fun missing => Nat.min 4096 missing) (N.to_nat 3) sock1
      = (Return [x61; x62; x63], sock2) /\
    pending sock2 = [x64] /\
    length (pending (stream_socket w)) = 4 + N.to_nat 3 + length (pending sock2) /\
    receive_one w = decode_and_publish [x61; x62; x63] (set_stream_socket sock2 w).
Proof.
  intros w. split; [reflexivity|]. split; [reflexivity|]. split; [reflexivity|].
  apply (receiver_consumes_frame_exactly w [x00; x00; x00; x03] [x61; x62; x63] [x64] 3);
    reflexivity.
Defined.

Lemma receiver_connection_lost_witness :
  let w := initial_world truncated_stream in
  incomplete (pending (stream_socket w)) = true /\
  (exists w1, recv_frame w = (Raise (ConnectionError "Connection lost"), w1)) /\
  exists w',
    receive_frames w = (Return tt, w') /\
    running w' = true /\
    current_frame w' = None /\
    trace w' = [EvPrint "Frame receiving error: Connection lost"].
Proof.
  intros w. split; [vm_compute; reflexivity|].
  destruct (receiver_connection_lost w) as [_ Hlost].
  destruct (Hlost eq_refl) as (Hraise & _ & w' & Hreturn & Hrunning & Hframe & Htrace).
  split; [exact Hraise|]. exists w'.
  split; [exact Hreturn|]. split; [exact Hrunning|]. split; [exact Hframe|exact Htrace].
Defined.

Lemma remote_save_parses_reply_witness :
  let saved := sample_server "SAVED:/data/img001.jpg" in
  let error := sample_server "ERROR:disk full" in
  let sent := log (EvRecv 1024) (log (EvSend "SAVE") sample_world) in
  (send_error saved = None /\
   reply saved = inr (list_byte_of_string "SAVED:/data/img001.jpg") /\
   decode_utf8 (firstn 1024 (list_byte_of_string "SAVED:/data/img001.jpg"))
     = inr "SAVED:/data/img001.jpg" /\
   startswith "SAVED:/data/img001.jpg" "SAVED:" = true /\
   startswith "ERROR:disk full" "SAVED:" = false) /\
  (exists path,
     "SAVED:/data/img001.jpg" = "SAVED:" +:+ path /\
     split1 ":" "SAVED:/data/img001.jpg" = ("SAVED", Some path) /\
     save_image_remote saved None sample_world
       = (Return true, log (EvPrint ("✓ Image saved on GO2: " +:+ path)) sent)) /\
  save_image_remote error None sample_world
    = (Return false, log (EvPrint "✗ Failed to save on GO2: ERROR:disk full") sent).
Proof.
  intros saved error sent. split; [repeat split|].
  destruct (remote_save_parses_reply saved None sample_world
              (list_byte_of_string "SAVED:/data/img001.jpg") "SAVED:/data/img001.jpg"
              eq_refl eq_refl eq_refl) as [Hsaved _].
  destruct (remote_save_parses_reply error None sample_world
              (list_byte_of_string "ERROR:disk full") "ERROR:disk full"
              eq_refl eq_refl eq_refl) as [_ Herror].
  split; [exact (Hsaved eq_refl)|exact (Herror eq_refl)].
Defined.

(** Two frames on the stream: when the receiver is about to store the
    second, the slot refers to the first; after the store it refers to the
    second. *)
Lemma slot_is_empty_or_decoded_witness :
  let i := {| in_key := -1; in_counter := 0 |} in
  let r := (Receiver, i) in
  let m := (Main, i) in
  let sock := [[x00; x00; x00; x03; x61; x62; x63]; [x00; x00; x00; x01; x7a]] in
  let s := run (H := toy_externals) [r; r; r; r; r; m; r; r; r] (initial sock) in
  pc_r s = RStore (Some 1) /\
  pc_m s = MWhile /\
  slot_ok s /\
  slot_frame s = Some [x61; x62; x63] /\
  exists s',
    step Receiver i s = Some s' /\
    slot s' = Some 1 /\
    slot_frame s' = Some [x7a] /\
    lock s' = Some Receiver.
Proof.
  intros i r m sock s.
  destruct (slot_is_empty_or_decoded sock [r; r; r; r; r; m; r; r; r])
    as (Hok & _ & _ & _ & Hpublish & _).
  destruct (Hpublish i (Some 1) eq_refl)
    as (_ & _ & s' & Hstep & Hslot & _ & Hlock & _ & f & Hframe & Hheap & _).
  split; [reflexivity|]. split; [reflexivity|]. split; [exact Hok|].
  split; [reflexivity|].
  exists s'. split; [exact Hstep|]. split; [exact Hslot|]. split; [|exact Hlock].
  rewrite Hframe, <- Hheap. reflexivity.
Defined.

Lemma local_save_copies_under_lock_witness :
  current_frame (initial_world []) = None /\
  current_frame sample_world = Some [x01; x02] /\
  (exists w',
     save_image_local (sample_machine true) None (initial_world []) = (Return false, w') /\
     trace w' = [EvAcquire; EvPrint "✗ No frame available to save"; EvRelease] /\
     files w' = ∅) /\
  (exists b w' filepath line,
     save_image_local (sample_machine true) None sample_world = (Return b, w') /\
     trace w' = [EvAcquire; EvCopy; EvRelease; EvNow; EvImwrite filepath 95; EvPrint line]).
Proof.
  split; [reflexivity|]. split; [reflexivity|]. split.
  - destruct (local_save_copies_under_lock (sample_machine true) None (initial_world []))
      as [Hnone _].
    exact (Hnone eq_refl).
  - destruct (local_save_copies_under_lock (sample_machine true) None sample_world)
      as [_ Hframe].
    destruct (Hframe [x01; x02] eq_refl) as (b & w' & filepath & line & Hrun & Htrace & _).
    exists b, w', filepath, line. split; [exact Hrun|exact Htrace].
Defined.

Lemma saves_never_raise_witness :
  let refused := {| send_error := Some (OSError "Broken pipe"); reply := inl (OSError "") |} in
  let full := {| now := sample_now; imwrite_result := inr false |} in
  send_error refused = Some (OSError "Broken pipe") /\
  current_frame sample_world = Some [x01; x02] /\
  (exists w',
     save_image_remote refused None sample_world = (Return false, w') /\
     last (trace w') = Some (EvPrint "Error saving remote image: Broken pipe")) /\
  (exists w' filepath,
     save_image_local full None sample_world = (Return false, w') /\
     last (trace w') = Some (EvPrint ("✗ Failed to save image: " +:+ filepath))).
Proof.
  intros refused full. split; [reflexivity|]. split; [reflexivity|].
  destruct (saves_never_raise refused full None sample_world (sample_tick 115))
    as (_ & _ & Hremote & Hlocal & _).
  split.
  - apply (Hremote (OSError "Broken pipe")). left. reflexivity.
  - apply (Hlocal [x01; x02] eq_refl).
Defined.

Lemma generated_filename_format_witness :
  current_frame sample_world = Some [x01; x02] /\
  valid_datetime sample_now /\
  imwrite_paths (trace (save_image_local (sample_machine true) None sample_world).2)
    = ["ball_dataset_local/ball_dataset_0001_20261103_080509_001.jpg"].
Proof.
  split; [reflexivity|].
  assert (valid_datetime sample_now) as Hvalid by (unfold valid_datetime; cbn; lia).
  split; [exact Hvalid|].
  destruct (generated_filename_format (sample_machine true) sample_world [x01; x02]
              eq_refl Hvalid) as (Hpath & Hshort & _).
  rewrite Hpath, Hshort by (cbn; lia). reflexivity.
Defined.

(** Against C8 as the specification states it: from 10000 on the sequence
    number has more than four digits, and two times of day that differ in
    the microseconds only give the same name. *)
Lemma generated_filename_counterexample :
  let w := set_image_counter 9999 sample_world in
  let later :=
    {| now := {| year := 2026; month := 11; day := 3; hour := 8; minute := 5;
                 second := 9; microsecond := 1999 |};
       imwrite_result := inr true |} in
  imwrite_paths (trace (save_image_local (sample_machine true) None w).2)
    = ["ball_dataset_local/ball_dataset_10000_20261103_080509_001.jpg"] /\
  String.length (format_0d 4 (image_counter w + 1)) = 5 /\
  microsecond (now later) <> microsecond (now (sample_machine true)) /\
  imwrite_paths (trace (save_image_local later None w).2)
    = imwrite_paths (trace (save_image_local (sample_machine true) None w).2).
Proof.
  intros w later. split; [vm_compute; reflexivity|]. split; [vm_compute; reflexivity|].
  split; [discriminate|vm_compute; reflexivity].
Qed.

Lemma local_save_same_name_twice_witness :
  let w := sample_world in
  let ok := sample_machine true in
  let w1 := (save_image_local ok (Some "ball.jpg") w).2 in
  let w2 := (save_image_local ok (Some "ball.jpg") (set_current_frame (Some [x03]) w1)).2 in
  current_frame w = Some [x01; x02] /\
  imwrite_paths (trace w2) = ["ball_dataset_local/ball.jpg"; "ball_dataset_local/ball.jpg"] /\
  image_counter w2 = 0%N /\
  files w2 = {["ball_dataset_local/ball.jpg" := [x03]]}.
Proof.
  intros w ok w1 w2. split; [reflexivity|].
  destruct (local_save_same_name_twice ok ok "ball.jpg" w [x01; x02] [x03] eq_refl)
    as (Hpaths & Hcounter & _ & Hfiles).
  destruct (Hfiles eq_refl eq_refl) as (_ & Hw2 & _).
  split; [exact Hpaths|]. split; [exact Hcounter|]. exact Hw2.
Defined.

Lemma local_save_counter_witness :
  let w' := (save_image_local (sample_machine false) None sample_world).2 in
  let w'' := (save_image_local (sample_machine false) (Some "ball.jpg") sample_world).2 in
  current_frame sample_world = Some [x01; x02] /\
  image_counter sample_world = 0%N /\
  image_counter w' = 1%N /\
  image_counter w'' = 0%N.
Proof.
  intros w' w''. split; [reflexivity|]. split; [reflexivity|].
  destruct (local_save_counter (sample_machine false) None sample_world)
    as (_ & _ & Hgen).
  destruct (local_save_counter (sample_machine false) (Some "ball.jpg") sample_world)
    as (Hnamed & _ & _).
  split; [apply (Hgen [x01; x02] eq_refl eq_refl)|apply (Hnamed "ball.jpg" eq_refl)].
Defined.

(** ** Further properties at sample inputs *)

Import Framing Session Waiting.

Lemma receive_frames_publishes_latest_witness :
  let w := initial_world sample_stream in
  running w = true /\
  pending (stream_socket w) = stream_of [sample_frame] ++ [x64] /\
  forallb well_framed [sample_frame] = true /\
  forallb decodes [sample_frame] = true /\
  incomplete [x64] = true /\
  exists w',
    receive_frames w = (Return tt, w') /\
    decode_payload sample_frame.2 = Some (current_frame w') /\
    trace w' = [EvAcquire; EvRelease; EvPrint "Frame receiving error: Connection lost"].
Proof.
  intros w. do 5 (split; [reflexivity|]).
  destruct (receive_frames_publishes_latest [sample_frame] [x64] w
              eq_refl eq_refl eq_refl eq_refl eq_refl)
    as (w' & Hrun & _ & Hlast & _ & Htrace).
  exists w'. split; [exact Hrun|]. split; [exact (Hlast sample_frame eq_refl)|exact Htrace].
Defined.

Lemma recv_frame_data_sound_witness :
  recv_frame_data sample_stream = (Return [x61; x62; x63], [[x64]]) /\
  exists prefix frame_size,
    pending sample_stream = prefix ++ [x61; x62; x63] ++ pending [[x64]] /\
    unpack_L prefix = Return frame_size /\
    length [x61; x62; x63] = N.to_nat frame_size /\
    (frame_size < 2 ^ 32)%N.
Proof.
  split; [reflexivity|].
  exact (recv_frame_data_sound sample_stream [x61; x62; x63] [[x64]] eq_refl).
Defined.

Lemma undecodable_frame_empties_slot_witness :
  let w :=
    set_current_frame (H := strict_externals) (Some [xff; x01])
      (initial_world (H := strict_externals) [frame_bytes blank_frame]) in
  pending (stream_socket w) = frame_bytes blank_frame ++ [] /\
  well_framed blank_frame = true /\
  decode_payload (H := strict_externals) blank_frame.2 = Some None /\
  current_frame w = Some [xff; x01] /\
  exists w',
    receive_one w = (Return tt, w') /\
    current_frame w' = None /\
    exists w'',
      save_image_local (sample_machine true) None w' = (Return false, w'') /\
      files w'' = files w.
Proof.
  intros w. do 4 (split; [reflexivity|]).
  destruct (undecodable_frame_empties_slot (H := strict_externals)
              blank_frame [] w (sample_machine true) None eq_refl eq_refl eq_refl)
    as (w' & Hrun & Hslot & _ & _ & w'' & Hsave & Hfiles & _).
  exists w'. split; [exact Hrun|]. split; [exact Hslot|].
  exists w''. split; [exact Hsave|exact Hfiles].
Defined.

Lemma decode_error_ends_receiver_witness :
  let w := set_current_frame (Some [x01]) (initial_world [frame_bytes empty_frame; [x00]]) in
  running w = true /\
  pending (stream_socket w) = frame_bytes empty_frame ++ [x00] /\
  well_framed empty_frame = true /\
  decode_payload empty_frame.2 = None /\
  exists e w',
    receive_frames w = (Return tt, w') /\
    current_frame w' = Some [x01] /\
    running w' = true /\
    pending (stream_socket w') = [x00] /\
    trace w' = [EvPrint ("Frame receiving error: " +:+ exn_str e)].
Proof.
  intros w. do 4 (split; [reflexivity|]).
  exact (decode_error_ends_receiver empty_frame [x00] w eq_refl eq_refl eq_refl eq_refl).
Defined.

Lemma local_save_writes_slot_frame_or_nothing_witness :
  current_frame sample_world = Some [x01; x02] /\
  local_succeeds (sample_machine true) = true /\
  (exists filepath,
     files (save_image_local (sample_machine true) None sample_world).2
     = {[filepath := [x01; x02]]}) /\
  (save_image_local (sample_machine false) None sample_world).1 <> Return true /\
  files (save_image_local (sample_machine false) None sample_world).2 = ∅.
Proof.
  do 2 (split; [reflexivity|]).
  destruct (local_save_writes_slot_frame_or_nothing (sample_machine true) None sample_world)
    as [Hwritten _].
  destruct (local_save_writes_slot_frame_or_nothing (sample_machine false) None sample_world)
    as [_ Hnothing].
  destruct (Hwritten [x01; x02] eq_refl eq_refl) as (filepath & _ & Hfiles & _).
  split; [exists filepath; exact Hfiles|].
  assert ((save_image_local (sample_machine false) None sample_world).1 <> Return true)
    as Hfailed by discriminate.
  split; [exact Hfailed|exact (Hnothing Hfailed)].
Defined.

Lemma remote_key_counts_acknowledged_saves_witness :
  let deaf :=
    {| published := None; waitKey := 32;
       server := sample_server "ERROR:disk full"; machine := sample_machine true |} in
  ((key_of deaf =? 115) || (key_of deaf =? 32))%Z = true /\
  remote_succeeds (server deaf) = false /\
  exists w',
    handle_key deaf sample_world = (Return Continue, w') /\
    image_counter w' = image_counter sample_world /\
    files w' = files sample_world.
Proof.
  intros deaf. do 2 (split; [reflexivity|]).
  destruct (remote_key_counts_acknowledged_saves deaf sample_world eq_refl)
    as (w' & Hrun & Hcounter & _ & _ & Hfiles & _).
  exists w'. split; [exact Hrun|]. split; [|exact Hfiles].
  rewrite Hcounter. reflexivity.
Defined.

Lemma both_key_shares_one_name_witness :
  key_of (sample_tick 98) = 98%Z /\
  exists w',
    handle_key (sample_tick 98) sample_world = (Return Continue, w') /\
    sent_commands (trace w') = ["SAVE:ball_dataset_0001_20261103_080509_001.jpg"] /\
    imwrite_paths (trace w')
      = ["ball_dataset_local/ball_dataset_0001_20261103_080509_001.jpg"] /\
    image_counter w' = 2%N.
Proof.
  split; [reflexivity|].
  destruct (both_key_shares_one_name (sample_tick 98) sample_world eq_refl)
    as (w' & Hrun & Hsent & Hpaths & Hcounter).
  exists w'. split; [exact Hrun|]. split; [exact Hsent|]. split; [exact Hpaths|exact Hcounter].
Defined.

Lemma other_keys_save_nothing_witness :
  no_save_key (sample_tick (-1)) = true /\
  quit_key (sample_tick (-1)) = false /\
  exists w',
    handle_key (sample_tick (-1)) sample_world = (Return Continue, w') /\
    image_counter w' = image_counter sample_world /\
    files w' = files sample_world /\
    trace w' = trace sample_world.
Proof.
  do 2 (split; [reflexivity|]).
  destruct (other_keys_save_nothing (sample_tick (-1)) sample_world eq_refl)
    as (w' & Hrun & Hcounter & Hfiles & _).
  exists w'. split; [exact Hrun|]. split; [exact Hcounter|]. split; [exact Hfiles|].
  injection Hrun as <-. reflexivity.
Defined.

Lemma counter_is_monotone_witness :
  let ticks := [sample_tick 115; sample_tick 104; sample_tick 108] in
  exists w',
    run_ticks ticks sample_world = Some w' /\
    (image_counter sample_world <= image_counter w' <= image_counter sample_world + 2 * 3)%N.
Proof.
  intros ticks.
  destruct (run_ticks ticks sample_world) as [w'|] eqn:Hrun; [|discriminate Hrun].
  exists w'. split; [reflexivity|].
  exact (counter_is_monotone ticks sample_world w' Hrun).
Defined.

Lemma loop_writes_inside_save_dir_witness :
  let ticks := [sample_tick 98; sample_tick 104; sample_tick 108] in
  exists w' ps,
    run_ticks ticks sample_world = Some w' /\
    imwrite_paths (trace w') = imwrite_paths (trace sample_world) ++ ps /\
    length ps <= 3 /\
    forallb in_save_dir ps = true.
Proof.
  intros ticks.
  destruct (run_ticks ticks sample_world) as [w'|] eqn:Hrun; [|discriminate Hrun].
  destruct (loop_writes_inside_save_dir ticks sample_world w' Hrun)
    as (ps & Hpaths & Hlen & Hdir & _).
  exists w', ps. split; [reflexivity|]. split; [exact Hpaths|]. split; [exact Hlen|exact Hdir].
Defined.

Lemma quit_ends_display_loop_witness :
  run_ticks [] sample_world = Some sample_world /\
  running sample_world = true /\
  quit_key (sample_tick 27) = true /\
  exists w',
    display_loop ([] ++ sample_tick 27 :: [sample_tick 108; sample_tick 115]) sample_world
      = (Return tt, w') /\
    image_counter w' = image_counter sample_world /\
    files w' = files sample_world.
Proof.
  do 3 (split; [reflexivity|]).
  destruct (quit_ends_display_loop [] (sample_tick 27) [sample_tick 108; sample_tick 115]
              sample_world sample_world eq_refl eq_refl eq_refl)
    as (w' & Hrun & Hcounter & Hfiles & _).
  exists w'. split; [exact Hrun|]. split; [exact Hcounter|exact Hfiles].
Defined.

Lemma generated_names_are_distinct_witness :
  9999%N <> 10000%N /\
  dataset_filename 9999 "20261103_080509_001" <> dataset_filename 10000 "20261103_080509_001".
Proof.
  assert (9999%N <> 10000%N) as Hne by discriminate.
  split; [exact Hne|].
  exact (generated_names_are_distinct 9999 10000 _ _ Hne).
Defined.

Lemma successive_auto_saves_keep_both_witness :
  let ok := sample_machine true in
  let w1 := (save_image_local ok None sample_world).2 in
  let w2 := (save_image_local ok None (set_current_frame (Some [x03]) w1)).2 in
  current_frame sample_world = Some [x01; x02] /\
  local_succeeds ok = true /\
  exists p1 p2,
    p1 <> p2 /\
    imwrite_paths (trace w2) = [p1; p2] /\
    files w2 !! p1 = Some [x01; x02] /\
    files w2 !! p2 = Some [x03].
Proof.
  intros ok w1 w2. do 2 (split; [reflexivity|]).
  exact (successive_auto_saves_keep_both ok ok sample_world [x01; x02] [x03]
           eq_refl eq_refl eq_refl).
Defined.

Lemma no_first_frame_no_exit_witness :
  let schedule :=
    [(Receiver, {| in_key := 113; in_counter := 0 |});
     (Main, {| in_key := 113; in_counter := 0 |});
     (Receiver, {| in_key := 113; in_counter := 0 |});
     (Receiver, {| in_key := 113; in_counter := 0 |});
     (Main, {| in_key := 113; in_counter := 0 |})] in
  incomplete (pending truncated_stream) = true /\
  pc_m (run schedule (initial truncated_stream)) = MWait /\
  slot (run schedule (initial truncated_stream)) = None /\
  flag (run schedule (initial truncated_stream)) = true.
Proof.
  intros schedule. split; [vm_compute; reflexivity|].
  destruct (no_first_frame_no_exit truncated_stream schedule)
    as (Hm & Hslot & Hflag & _); [vm_compute; reflexivity|].
  split; [exact Hm|]. split; [exact Hslot|exact Hflag].
Defined.

Lemma start_always_stops_witness :
  let run := start sample_config sample_session (fresh []) in
  start sample_config sample_session (fresh []) = (run.1, run.2) /\
  run.1 <> Unfinished /\
  run.1 = Return tt /\
  running (client run.2) = false /\
  closed_or_absent (stream_handle run.2) = true /\
  closed_or_absent (save_handle run.2) = true.
Proof.
  intros run.
  assert (start sample_config sample_session (fresh []) = (run.1, run.2)) as Hrun
    by apply surjective_pairing.
  assert (run.1 <> Unfinished) as Hfinished by discriminate.
  destruct (start_always_stops sample_config sample_session (fresh []) run.1 run.2
              Hrun Hfinished) as (Hreturn & Hflag & Hstream & Hsave & _).
  split; [exact Hrun|]. split; [exact Hfinished|]. split; [exact Hreturn|].
  split; [exact Hflag|]. split; [exact Hstream|exact Hsave].
Defined.

Lemma failed_connection_shuts_down_witness :
  let env :=
    {| stream_net := refused; save_net := reachable; arrivals := [];
       ticks := [sample_tick 115] |} in
  connect_error (stream_net env) = Some (OSError "Connection refused") /\
  create_error (stream_net env) = None /\
  exists p',
    start sample_config env (fresh []) = (Return tt, p') /\
    save_handle p' = NoSocket /\
    stream_handle p' = Socket true /\
    running (client p') = false /\
    sent_commands (trace (client p')) = [] /\
    trace (client p')
    = [EvPrint "Failed to connect to stream: Connection refused";
       EvPrint "Camera client stopped. Total images captured: 0";
       EvPrint "Local images saved to: /home/user/ball_dataset_local"].
Proof.
  intros env. do 2 (split; [reflexivity|]).
  destruct (failed_connection_shuts_down sample_config env (fresh [])
              (OSError "Connection refused")) as [Hstream _].
  eexists. split; [exact (Hstream eq_refl eq_refl)|].
  repeat split.
Defined.

Lemma wait_returns_with_first_frame_witness :
  running (initial_world (H := toy_externals) []) = true /\
  exists w',
    wait_for_first_frame (H := toy_externals) [None; Some (Some [x01])] (initial_world [])
      = (Return tt, w') /\
    is_Some (current_frame w') /\ running w' = true.
Proof.
  split; [reflexivity|].
  eexists. split; [vm_compute; reflexivity|].
  match goal with
  | |- is_Some (current_frame ?w') /\ _ =>
      destruct (wait_returns_with_first_frame (H := toy_externals)
                  [None; Some (Some [x01])] (initial_world []) w' eq_refl eq_refl)
        as (Hframe & Hflag & _)
  end.
  split; [exact Hframe|exact Hflag].
Defined.

Lemma stopped_receiver_publishes_no_more_witness :
  let s :=
    {| slot := None; heap := ∅; next := 0; lock := None; flag := false;
       stream := sample_stream; pc_r := RWhile; pc_m := MDone |} in
  let schedule :=
    [(Receiver, {| in_key := 0; in_counter := 0 |});
     (Main, {| in_key := 0; in_counter := 0 |});
     (Receiver, {| in_key := 0; in_counter := 0 |})] in
  flag s = false /\ pc_m s = MDone /\ pc_r s = RWhile /\
  pc_r (run schedule s) = RDone /\
  slot (run schedule s) = None /\
  stream (run schedule s) = sample_stream.
Proof.
  intros s schedule. do 3 (split; [reflexivity|]).
  destruct (stopped_receiver_publishes_no_more schedule s eq_refl eq_refl eq_refl)
    as (_ & _ & _ & Hslot & Hstream & _).
  split; [reflexivity|]. split; [exact Hslot|exact Hstream].
Defined.
